(** * Trip-ELD-Navigator: the hours-of-service engine of [backend/api/hos_logic.py]

    A shallow embedding of the route planner and of its compliance checker,
    with the summary that the [route] view of [backend/api/views.py] builds
    from a route, followed by the properties its specification states about
    them and by further properties read off the code.

    Reading of the Python data:
    - a [float] is read as an exact rational ([Q]); rounding, infinities and
      NaN are outside the model;
    - a [datetime] is read as a rational number of hours since a fixed origin,
      so that [t + timedelta(hours=h)] is [t + h]; the microsecond resolution
      of [datetime] is outside the model;
    - [datetime.now()] is an input of the schedule builder ([now]);
    - the haversine distance needs trigonometry, so [_calculate_distance] is a
      parameter of the engine, taken as a total function (the domain error
      that [math.sqrt] raises when rounding pushes the haversine term above 1
      is outside the model); the answer of the geocoding service, Python's
      [float(str)] and what the [print] of the resolver's handler does are
      parameters of the resolver;
    - a raised exception is a value ([Raise e]) of the result type. *)

From Stdlib Require Import ZArith QArith Qround Qabs Lqa Lia.
From Stdlib Require Import List String Ascii Bool DecimalString.
From Equations Require Import Equations.
Import ListNotations.

Local Open Scope string_scope.
Local Open Scope Q_scope.

(** ** Numbers, comparisons and timestamps *)

(** Python's [a < b] on floats ([Qle_bool] is [a <= b]). *)
Definition Qlt_bool (a b : Q) : bool := negb (Qle_bool b a).

Lemma Qlt_bool_iff (a b : Q) : Qlt_bool a b = true <-> a < b.
Proof.
  unfold Qlt_bool. rewrite negb_true_iff. split.
  - intros H. apply Qnot_le_lt. intros Hle.
    apply Qle_bool_iff in Hle. congruence.
  - intros H. destruct (Qle_bool b a) eqn:E; [|reflexivity].
    apply Qle_bool_iff in E. exfalso. apply (Qlt_not_le _ _ H E).
Qed.

Lemma Qle_bool_false_iff (a b : Q) : Qle_bool a b = false <-> b < a.
Proof.
  rewrite <- Qlt_bool_iff. unfold Qlt_bool.
  destruct (Qle_bool a b); simpl; intuition congruence.
Qed.

Definition datetime := Q.

Definition timedelta_hours (h : Q) : Q := h.
Definition timedelta_minutes (m : Q) : Q := m / 60.

(** ** String formatting used for the names of fuel stops *)

Definition Zdigits (z : Z) : string :=
  NilZero.string_of_uint (N.to_uint (Z.to_N z)).

Definition round_half_even (q : Q) : Z :=
  let f := Qfloor q in
  match Qcompare (q - inject_Z f) (1 # 2) with
  | Lt => f
  | Gt => (f + 1)%Z
  | Eq => if Z.even f then f else (f + 1)%Z
  end.

(** [f"{x:.2f}"]: sign, integer part, two decimals. *)
Definition format_2f (x : Q) : string :=
  let n := round_half_even (Qabs x * 100) in
  let cents := (n mod 100)%Z in
  (if Qlt_bool x 0 then "-" else "")
    ++ Zdigits (n / 100) ++ "."
    ++ (if (cents <? 10)%Z then "0" else "") ++ Zdigits cents.

(** ** Data model *)

Record Location := mkLocation {
  name : string;
  latitude : Q;
  longitude : Q
}.

Record RoutePoint := mkRoutePoint {
  location : Location;
  arrival_time : datetime;
  departure_time : datetime;
  status : string;
  miles_from_start : Q;
  cumulative_driving_hours : Q;
  cumulative_duty_hours : Q
}.

Record RouteDetails := mkRouteDetails {
  total_distance : Q;
  total_time : Q;
  fueling_stops : list Location;
  duty_schedule : list RoutePoint;
  violations : list string
}.

(** ** Exceptions *)

Inductive exn :=
| ConnectionError | HTTPError | JSONDecodeError
| TypeError | KeyError | IndexError | ValueError
| UnicodeEncodeError | OSError.

Inductive result (A : Type) :=
| Ok (a : A)
| Raise (e : exn).
Arguments Ok {A} a.
Arguments Raise {A} e.

Definition bind {A B} (r : result A) (k : A -> result B) : result B :=
  match r with
  | Ok a => k a
  | Raise e => Raise e
  end.

Notation "x <- r ;; k" := (bind r (fun x => k))
  (at level 61, r at next level, right associativity).

Notation "' pat <- r ;; k" := (bind r (fun pat => k))
  (at level 61, pat pattern, r at next level, right associativity).

(** [try: body  except Exception as e: handler e]. *)
Definition try_except {A} (body : result A) (handler : exn -> result A)
  : result A :=
  match body with
  | Ok a => Ok a
  | Raise e => handler e
  end.

(** ** The geocoding resolver ([geocode_location]) *)

(** The values [response.json()] can return. *)
#[local] Set Warnings "-register-all".
Inductive json :=
| JNull
| JBool (b : bool)
| JNum (x : Q)
| JStr (s : string)
| JArr (items : list json)
| JObj (members : list (string * json)).
#[local] Set Warnings "register-all".

(** What [requests.get] hands back when it does not raise: whether the status
    code is a success, and the body when it parses as JSON. *)
Record http_response := mkResponse {
  status_ok : bool;
  body : option json
}.

Module Py.

Definition raise_for_status (r : http_response) : result unit :=
  if status_ok r then Ok tt else Raise HTTPError.

Definition response_json (r : http_response) : result json :=
  match body r with
  | Some j => Ok j
  | None => Raise JSONDecodeError
  end.

(** Truth value of an object in a boolean context. *)
Definition truthy (j : json) : bool :=
  match j with
  | JNull => false
  | JBool b => b
  | JNum x => negb (Qeq_bool x 0)
  | JStr s => negb (String.eqb s "")
  | JArr items => match items with [] => false | _ => true end
  | JObj members => match members with [] => false | _ => true end
  end.

(** [len(j)]. *)
Definition len (j : json) : result nat :=
  match j with
  | JStr s => Ok (String.length s)
  | JArr items => Ok (List.length items)
  | JObj members => Ok (List.length members)
  | _ => Raise TypeError
  end.

(** [j[0]]; the keys of a JSON object are strings, so [0] is never one. *)
Definition item0 (j : json) : result json :=
  match j with
  | JArr (x :: _) => Ok x
  | JArr [] => Raise IndexError
  | JStr (String c _) => Ok (JStr (String c EmptyString))
  | JStr EmptyString => Raise IndexError
  | JObj _ => Raise KeyError
  | _ => Raise TypeError
  end.

Fixpoint dict_get (members : list (string * json)) (key : string)
  : result json :=
  match members with
  | [] => Raise KeyError
  | (k, v) :: rest => if String.eqb k key then Ok v else dict_get rest key
  end.

(** [j[key]] for a string [key]. *)
Definition item (j : json) (key : string) : result json :=
  match j with
  | JObj members => dict_get members key
  | _ => Raise TypeError
  end.

End Py.

Definition default_coordinates : Q * Q := (407128 # 10000, - (74006 # 1000)).

Section Resolver.

(** The outcome of [requests.get(url, params={'q': location_str, ...})]. *)
Variable http_get : string -> result http_response.
(** Python's [float(s)] on a string: [None] when it raises [ValueError]. *)
Variable parse_float : string -> option Q.
(** [print(f"Geocoding failed for '{location_str}': {e}")] in the handler:
    what writing that line to the standard output does, for the name looked
    up and the exception caught.  It returns, or it raises (the output cannot
    encode the name, the stream is closed, ...). *)
Variable stdout_print : string -> exn -> result unit.

Definition py_float (j : json) : result Q :=
  match j with
  | JNum x => Ok x
  | JBool b => Ok (if b then 1 else 0)
  | JStr s => match parse_float s with
              | Some x => Ok x
              | None => Raise ValueError
              end
  | _ => Raise TypeError
  end.

(** The body of the [try] block. *)
Definition geocode_request (location_str : string) : result (Q * Q) :=
  response <- http_get location_str ;;
  _ <- Py.raise_for_status response ;;
  data <- Py.response_json response ;;
  nonempty <- (if Py.truthy data
               then n <- Py.len data ;; Ok (0 <? n)%nat
               else Ok false) ;;
  if nonempty : bool then
    first_lat <- Py.item0 data ;;
    lat_field <- Py.item first_lat "lat" ;;
    lat <- py_float lat_field ;;
    first_lon <- Py.item0 data ;;
    lon_field <- Py.item first_lon "lon" ;;
    lon <- py_float lon_field ;;
    Ok (lat, lon)
  else
    Ok default_coordinates.

Definition geocode_location (location_str : string) : result (Q * Q) :=
  try_except (geocode_request location_str)
             (fun e =>
                _ <- stdout_print location_str e ;;
                Ok default_coordinates).

End Resolver.

(** ** The calculator ([class HOSCalculator]) *)

Module HOSCalculator.

Local Open Scope list_scope.

(** FMCSA constants. *)
Definition MAX_DRIVING_HOURS : Q := 11.
Definition MAX_DUTY_HOURS : Q := 14.
Definition MIN_OFF_DUTY_HOURS : Q := 10.
Definition BREAK_THRESHOLD : Q := 8.
Definition BREAK_DURATION : Q := 1 # 2.
Definition FUELING_INTERVAL : Q := 1000.
Definition PICKUP_TIME : Q := 1.
Definition DROPOFF_TIME : Q := 1.
Definition MAX_70_HOUR_WINDOW : Q := 70.

(** The attributes of an instance that the methods read or write. *)
Record self := mkSelf {
  current_cycle_used : Q;
  location_cache : list (string * Location)
}.

(** [HOSCalculator()]. *)
Definition __init__ : self := mkSelf 0 [].

Fixpoint cache_get (cache : list (string * Location)) (key : string)
  : option Location :=
  match cache with
  | [] => None
  | (k, v) :: rest => if String.eqb k key then Some v else cache_get rest key
  end.

Definition _calculate_drive_time (distance : Q) : Q := distance / 55.

Definition _interpolate_location (start end_ : Location) (progress : Q)
  : Location :=
  let lat := latitude start + (latitude end_ - latitude start) * progress in
  let lon := longitude start + (longitude end_ - longitude start) * progress in
  mkLocation ("Fuel Stop at " ++ format_2f lat ++ ", " ++ format_2f lon)%string
             lat lon.

(** Number of whole miles left before [limit]: what the fuelling loops
    count down. *)
Definition miles_left (limit miles_so_far : Q) : nat :=
  Z.to_nat (Qfloor (limit - miles_so_far)).

Lemma miles_left_decreases (limit miles_so_far : Q) :
  miles_so_far + FUELING_INTERVAL < limit ->
  (miles_left limit (miles_so_far + FUELING_INTERVAL)
   < miles_left limit miles_so_far)%nat.
Proof.
  unfold FUELING_INTERVAL, miles_left. intros q.
  remember (limit - miles_so_far) as x eqn:Ex.
  assert (Hx : 1000 < x) by (subst x; lra).
  assert (Hy : limit - (miles_so_far + 1000) == x - 1000) by (subst x; lra).
  rewrite (Qfloor_comp _ _ Hy).
  pose proof (Qfloor_le (x - 1000)) as H1.
  pose proof (Qlt_floor x) as H2.
  assert (H3 : (1000 <= Qfloor x)%Z).
  { change 1000%Z with (Qfloor (inject_Z 1000)).
    apply Qfloor_resp_le. apply Qlt_le_weak. exact Hx. }
  assert (H4 : (Qfloor (x - 1000) < Qfloor x)%Z).
  { apply Z.lt_le_trans with (Qfloor x + - 999)%Z; [|lia].
    rewrite Zlt_Qlt, inject_Z_plus. rewrite inject_Z_plus in H2.
    set (a := inject_Z (Qfloor x)) in *.
    set (b := inject_Z (Qfloor (x - 1000))) in *.
    change (inject_Z 1) with 1 in H2.
    change (inject_Z (-999)) with (-999).
    clearbody a b. lra. }
  lia.
Qed.

(** [while miles_so_far + FUELING_INTERVAL < limit:
       miles_so_far += FUELING_INTERVAL
       stops.append(place(miles_so_far))]
    the shape of both loops of [_calculate_fueling_stops]; the result is the
    final value of [stops]. *)
Equations? fueling_loop (limit : Q) (place : Q -> Location)
    (miles_so_far : Q) (stops : list Location) : list Location
    by wf (miles_left limit miles_so_far) lt :=
  fueling_loop limit place miles_so_far stops
    with Qlt_le_dec (miles_so_far + FUELING_INTERVAL) limit => {
    | left _ =>
        fueling_loop limit place (miles_so_far + FUELING_INTERVAL)
                     (stops ++ [place (miles_so_far + FUELING_INTERVAL)])
    | right _ => stops }.
Proof. exact (miles_left_decreases limit miles_so_far q). Qed.

Section Engine.

(** Great-circle distance in miles between two locations. *)
Variable _calculate_distance : Location -> Location -> Q.

Definition _calculate_fueling_stops (current pickup dropoff : Location)
  : list Location :=
  let stops := [] in
  let distance_to_pickup := _calculate_distance current pickup in
  let distance_pickup_to_dropoff := _calculate_distance pickup dropoff in
  (* stops on the way to pickup *)
  let stops :=
    fueling_loop distance_to_pickup
      (fun miles_so_far =>
         _interpolate_location current pickup
           (miles_so_far / distance_to_pickup))
      0 stops in
  (* stops from pickup to dropoff *)
  fueling_loop (distance_to_pickup + distance_pickup_to_dropoff)
    (fun miles_so_far =>
       let progress :=
         (miles_so_far - distance_to_pickup) / distance_pickup_to_dropoff in
       _interpolate_location pickup dropoff progress)
    distance_to_pickup stops.

(** The local variables of [_add_driving_segment]. *)
Record leg_state := mkLeg {
  segment_points : list RoutePoint;
  current_time : datetime;
  current_miles : Q;
  current_driving : Q;
  current_duty : Q
}.

(** [if current_driving >= self.BREAK_THRESHOLD: ...] *)
Definition break_check (start : Location) (st : leg_state) : leg_state :=
  if Qle_bool BREAK_THRESHOLD (current_driving st) then
    let break_start := current_time st in
    let break_end := break_start + timedelta_hours BREAK_DURATION in
    mkLeg (segment_points st ++
             [mkRoutePoint start break_start break_end "Off Duty"
                (current_miles st) (current_driving st) (current_duty st)])
          break_end
          (current_miles st)
          0
          (current_duty st + BREAK_DURATION)
  else st.

(** One iteration of [for stop in fueling_stops: ...]. *)
Definition fuel_stop (start : Location) (distance : Q)
    (st : leg_state) (stop : Location) : leg_state :=
  if Qlt_bool (current_miles st) distance then
    let stop_distance := _calculate_distance start stop in
    let time_to_stop := _calculate_drive_time stop_distance in
    let arrival_time := current_time st + timedelta_hours time_to_stop in
    let departure_time := arrival_time + timedelta_minutes 30 in
    mkLeg (segment_points st ++
             [mkRoutePoint stop arrival_time departure_time "On Duty"
                (current_miles st + stop_distance)
                (current_driving st + time_to_stop)
                (current_duty st + time_to_stop + (1 # 2))])
          departure_time
          (current_miles st + stop_distance)
          (current_driving st + time_to_stop)
          (current_duty st + time_to_stop + (1 # 2))
  else st.

(** The final arrival at the destination; returns [segment_points]. *)
Definition final_arrival (end_ : Location) (distance : Q) (st : leg_state)
  : list RoutePoint :=
  let remaining_distance := distance - current_miles st in
  let remaining_time := _calculate_drive_time remaining_distance in
  let arrival_time := current_time st + timedelta_hours remaining_time in
  segment_points st ++
    [mkRoutePoint end_ arrival_time arrival_time "Driving" distance
       (current_driving st + remaining_time)
       (current_duty st + remaining_time)].

Definition _add_driving_segment (start end_ : Location) (distance : Q)
    (start_time : datetime) (cumulative_driving cumulative_duty : Q)
    (fueling_stops : list Location) : list RoutePoint :=
  let st := mkLeg [] start_time 0 cumulative_driving cumulative_duty in
  let st := break_check start st in
  let st := fold_left (fuel_stop start distance) fueling_stops st in
  final_arrival end_ distance st.

Definition _generate_duty_schedule (s : self) (now : datetime)
    (current pickup dropoff : Location)
    (distance_to_pickup distance_pickup_to_dropoff : Q)
    (fueling_stops : list Location) : list RoutePoint :=
  let current_time := now in
  let cumulative_driving := current_cycle_used s in
  let cumulative_duty := current_cycle_used s in
  (* start at current location *)
  let schedule :=
    [mkRoutePoint current current_time current_time "Off Duty" 0
       cumulative_driving cumulative_duty] in
  (* drive to pickup location *)
  let drive_time := _calculate_drive_time distance_to_pickup in
  let arrival_time := current_time + timedelta_hours drive_time in
  let departure_time := arrival_time + timedelta_hours PICKUP_TIME in
  let schedule :=
    schedule ++
      _add_driving_segment current pickup distance_to_pickup current_time
        cumulative_driving cumulative_duty fueling_stops in
  let cumulative_driving := cumulative_driving + drive_time in
  let cumulative_duty := cumulative_duty + (drive_time + PICKUP_TIME) in
  (* pickup *)
  let schedule :=
    schedule ++
      [mkRoutePoint pickup arrival_time departure_time "On Duty"
         distance_to_pickup cumulative_driving cumulative_duty] in
  (* drive to dropoff location *)
  let drive_time := _calculate_drive_time distance_pickup_to_dropoff in
  let arrival_time := departure_time + timedelta_hours drive_time in
  let departure_time := arrival_time + timedelta_hours DROPOFF_TIME in
  let schedule :=
    schedule ++
      _add_driving_segment pickup dropoff distance_pickup_to_dropoff
        departure_time cumulative_driving cumulative_duty [] in
  let cumulative_driving := cumulative_driving + drive_time in
  let cumulative_duty := cumulative_duty + (drive_time + DROPOFF_TIME) in
  (* dropoff *)
  let schedule :=
    schedule ++
      [mkRoutePoint dropoff arrival_time departure_time "On Duty"
         (distance_to_pickup + distance_pickup_to_dropoff)
         cumulative_driving cumulative_duty] in
  (* required off-duty time *)
  if Qle_bool MAX_DRIVING_HOURS cumulative_driving
     || Qle_bool MAX_DUTY_HOURS cumulative_duty
  then
    let off_duty_start := departure_time in
    let off_duty_end :=
      off_duty_start + timedelta_hours MIN_OFF_DUTY_HOURS in
    schedule ++
      [mkRoutePoint dropoff off_duty_start off_duty_end "Off Duty"
         (distance_to_pickup + distance_pickup_to_dropoff) 0 0]
  else schedule.

Definition _calculate_total_time (schedule : list RoutePoint) : Q :=
  match schedule with
  | [] => 0
  | first :: _ =>
      let start_time := arrival_time first in
      let end_time := departure_time (last schedule first) in
      end_time - start_time
  end.

(** The body of [for i, point in enumerate(schedule): ...]. *)
Definition check_point (violations : list string) (point : RoutePoint)
  : list string :=
  let violations :=
    if Qlt_bool MAX_DRIVING_HOURS (cumulative_driving_hours point)
    then violations ++
           [("Violation: Exceeded 11-hour driving limit at "
               ++ name (location point))%string]
    else violations in
  let violations :=
    if Qlt_bool MAX_DUTY_HOURS (cumulative_duty_hours point)
    then violations ++
           [("Violation: Exceeded 14-hour duty limit at "
               ++ name (location point))%string]
    else violations in
  if Qlt_bool MAX_70_HOUR_WINDOW (cumulative_duty_hours point)
  then violations ++
         [("Violation: Exceeded 70-hour/8-day limit at "
             ++ name (location point))%string]
  else violations.

Definition _check_violations (schedule : list RoutePoint) : list string :=
  fold_left check_point schedule [].

(** [summary[key] += x] on a dict held as its list of items, in insertion
    order: a missing key raises. *)
Fixpoint dict_add (summary : list (string * Q)) (key : string) (x : Q)
  : result (list (string * Q)) :=
  match summary with
  | [] => Raise KeyError
  | (k, v) :: rest =>
      if String.eqb k key then Ok ((k, v + x) :: rest)
      else rest' <- dict_add rest key x ;; Ok ((k, v) :: rest')
  end.

(** [for i in range(len(schedule) - 1): ...], on the adjacent points
    [schedule[i]] and [schedule[i + 1]]. *)
Fixpoint summary_loop (schedule : list RoutePoint)
    (summary : list (string * Q)) : result (list (string * Q)) :=
  match schedule with
  | current :: rest =>
      match rest with
      | next_point :: _ =>
          let duration := arrival_time next_point - departure_time current in
          summary <- dict_add summary (status current) duration ;;
          summary_loop rest summary
      | [] => Ok summary
      end
  | [] => Ok summary
  end.

Definition get_duty_status_summary (schedule : list RoutePoint)
  : result (list (string * Q)) :=
  let summary :=
    [("Driving"%string, 0); ("On Duty"%string, 0);
     ("Sleeper"%string, 0); ("Off Duty"%string, 0)] in
  summary_loop schedule summary.

(** The resolver's environment. *)
Variable http_get : string -> result http_response.
Variable parse_float : string -> option Q.
Variable stdout_print : string -> exn -> result unit.

Definition _parse_location (s : self) (location_str : string)
  : result (Location * self) :=
  match cache_get (location_cache s) location_str with
  | Some cached => Ok (cached, s)
  | None =>
      ' (lat, lon) <-
        geocode_location http_get parse_float stdout_print location_str ;;
      let location := mkLocation location_str lat lon in
      Ok (location,
          mkSelf (current_cycle_used s)
                 ((location_str, location) :: location_cache s))
  end.

Definition calculate_route (s : self) (now : datetime)
    (current_location pickup_location dropoff_location : string)
    (current_cycle_used : Q) : result (RouteDetails * self) :=
  let s := mkSelf current_cycle_used (location_cache s) in
  ' (current_loc, s) <- _parse_location s current_location ;;
  ' (pickup_loc, s) <- _parse_location s pickup_location ;;
  ' (dropoff_loc, s) <- _parse_location s dropoff_location ;;
  let distance_to_pickup := _calculate_distance current_loc pickup_loc in
  let distance_pickup_to_dropoff :=
    _calculate_distance pickup_loc dropoff_loc in
  let total_distance := distance_to_pickup + distance_pickup_to_dropoff in
  let fueling_stops :=
    _calculate_fueling_stops current_loc pickup_loc dropoff_loc in
  let duty_schedule :=
    _generate_duty_schedule s now current_loc pickup_loc dropoff_loc
      distance_to_pickup distance_pickup_to_dropoff fueling_stops in
  let violations := _check_violations duty_schedule in
  let total_time := _calculate_total_time duty_schedule in
  Ok (mkRouteDetails total_distance total_time fueling_stops
        duty_schedule violations, s).

End Engine.

End HOSCalculator.

(** [calculate_hos_route]: a fresh calculator per call. *)
Definition calculate_hos_route
    (_calculate_distance : Location -> Location -> Q)
    (http_get : string -> result http_response)
    (parse_float : string -> option Q)
    (stdout_print : string -> exn -> result unit)
    (now : datetime)
    (current_location pickup_location dropoff_location : string)
    (current_cycle_used : Q) : result RouteDetails :=
  let calculator := HOSCalculator.__init__ in
  ' (details, _) <-
    HOSCalculator.calculate_route _calculate_distance http_get parse_float
      stdout_print calculator now current_location pickup_location dropoff_location
      current_cycle_used ;;
  Ok details.

(** ** The summary of the [route] view ([views.py]) *)

Module Views.

(** [max(values, default=default)]: the first of the greatest values. *)
Definition py_max (values : list Q) (default : Q) : Q :=
  match values with
  | [] => default
  | first :: rest =>
      fold_left (fun best x => if Qlt_bool best x then x else best) rest first
  end.

(** The ["summary"] entry of the response of [route]. *)
Record summary := mkSummary {
  total_driving_hours : Q;
  total_duty_hours : Q;
  fuel_stops_count : nat;
  has_violations : bool
}.

Definition route_summary (route_details : RouteDetails) : summary :=
  mkSummary
    (py_max (map cumulative_driving_hours (duty_schedule route_details)) 0)
    (py_max (map cumulative_duty_hours (duty_schedule route_details)) 0)
    (List.length (fueling_stops route_details))
    (0 <? List.length (violations route_details))%nat.

End Views.

(** ** Environments for worked examples

    The engine is parametric in the distance function and in the answers of
    the geocoding service.  The examples below run it in two environments. *)

Module Examples.

(** No network: every request raises. *)
Definition offline (_ : string) : result http_response :=
  Raise ConnectionError.

(** A service that knows three cities and answers as Nominatim does: a list
    with one object whose coordinates are strings. *)
Definition place (lat lon : string) : http_response :=
  mkResponse true (Some (JArr [JObj [("lat", JStr lat); ("lon", JStr lon)]])).

Definition gazetteer (q : string) : result http_response :=
  if String.eqb q "New York" then Ok (place "40.75" "-74.00")
  else if String.eqb q "Chicago" then Ok (place "41.75" "-87.75")
  else if String.eqb q "Los Angeles" then Ok (place "34.00" "-118.25")
  else if String.eqb q "Atlantis" then Ok (mkResponse true (Some (JArr [])))
  else if String.eqb q "Teapot" then Ok (mkResponse false None)
  else Ok (mkResponse true (Some (JObj [("error", JStr "Unable to geocode")]))).

(** [float(s)] on the strings the gazetteer uses. *)
Definition parse_float (s : string) : option Q :=
  if String.eqb s "40.75" then Some (4075 # 100)
  else if String.eqb s "-74.00" then Some (- (74 # 1))
  else if String.eqb s "41.75" then Some (4175 # 100)
  else if String.eqb s "-87.75" then Some (- (8775 # 100))
  else if String.eqb s "34.00" then Some (34 # 1)
  else if String.eqb s "-118.25" then Some (- (11825 # 100))
  else None.

(** A standard output that takes every line. *)
Definition quiet_stdout (_ : string) (_ : exn) : result unit := Ok tt.

(** The one-character name ['\ud800'], a lone surrogate, written as the
    three bytes of its generalized UTF-8 form. *)
Definition lone_surrogate : string :=
  String (ascii_of_nat 237)
    (String (ascii_of_nat 160) (String (ascii_of_nat 128) EmptyString)).

(** What a name that UTF-8 cannot encode meets: [requests] cannot put it in
    the query and raises, and a UTF-8 standard output cannot print it. *)
Definition strict_service (q : string) : result http_response :=
  if String.eqb q lone_surrogate then Raise UnicodeEncodeError
  else gazetteer q.

Definition utf8_stdout (location_str : string) (_ : exn) : result unit :=
  if String.eqb location_str lone_surrogate then Raise UnicodeEncodeError
  else Ok tt.

(** The name [Zürich], with the two bytes of its second letter in UTF-8. *)
Definition zurich : string :=
  String "Z" (String (ascii_of_nat 195) (String (ascii_of_nat 188) "rich")).

(** A standard output encoded in ASCII: it cannot print a line that holds a
    name with a byte above 127. *)
Fixpoint is_ascii (s : string) : bool :=
  match s with
  | EmptyString => true
  | String c rest => (nat_of_ascii c <? 128)%nat && is_ascii rest
  end.

Definition ascii_stdout (location_str : string) (_ : exn) : result unit :=
  if is_ascii location_str then Ok tt else Raise UnicodeEncodeError.

(** A computable stand-in for the haversine: 50 miles per degree of
    latitude and of longitude, added.  Like the haversine it is symmetric,
    never negative, and zero between coincident points. *)
Definition grid_distance (a b : Location) : Q :=
  50 * (Qabs (latitude b - latitude a) + Qabs (longitude b - longitude a)).

(** The trip whose three places are one and the same. *)
Definition same_place_trip (cycle : Q) : result RouteDetails :=
  calculate_hos_route grid_distance offline parse_float quiet_stdout 0
    "Chicago" "Chicago" "Chicago" cycle.

Definition coast_to_coast (cycle : Q) : result RouteDetails :=
  calculate_hos_route grid_distance gazetteer parse_float quiet_stdout 0
    "New York" "Chicago" "Los Angeles" cycle.

(** A point with 75 duty hours. *)
Definition overworked : RoutePoint :=
  mkRoutePoint (mkLocation "Depot" 0 0) 0 0 "On Duty" 0 5 75.

Definition depot : Location := mkLocation "Depot" 0 0.
(** Eleven degrees of latitude north of the depot: 550 grid miles. *)
Definition yard : Location := mkLocation "Yard" 11 0.

End Examples.

(** ** Vocabulary of the properties *)

(** [returns r P]: the call [r] returns normally and its value satisfies [P]. *)
Definition returns {A} (r : result A) (P : A -> Prop) : Prop :=
  match r with
  | Ok a => P a
  | Raise _ => False
  end.

(** An exception [e] that the [print] of the resolver's handler raised. *)
Definition print_raised (stdout_print : string -> exn -> result unit)
    (e : exn) : Prop :=
  exists location_str cause, stdout_print location_str cause = Raise e.

(** [returns_unless_print stdout_print r P]: the call [r] returns normally
    and its value satisfies [P], unless it lets through an exception that the
    [print] of the resolver's handler raised. *)
Definition returns_unless_print
    (stdout_print : string -> exn -> result unit) {A}
    (r : result A) (P : A -> Prop) : Prop :=
  match r with
  | Ok a => P a
  | Raise e => print_raised stdout_print e
  end.

(** Timestamps never go back: each segment departs no earlier than it
    arrives, and arrives no earlier than the previous one departs. *)
Fixpoint chronological (schedule : list RoutePoint) : Prop :=
  match schedule with
  | [] => True
  | p :: rest =>
      arrival_time p <= departure_time p
      /\ match rest with
         | [] => True
         | q :: _ => departure_time p <= arrival_time q
         end
      /\ chronological rest
  end.

Fixpoint miles_nondecreasing (schedule : list RoutePoint) : Prop :=
  match schedule with
  | [] => True
  | p :: rest =>
      match rest with
      | [] => True
      | q :: _ => miles_from_start p <= miles_from_start q
      end
      /\ miles_nondecreasing rest
  end.

Definition count_status (st : string) (schedule : list RoutePoint) : nat :=
  List.length (filter (fun p => String.eqb (status p) st) schedule).

(** The pieces of a schedule, named after the comments of
    [_generate_duty_schedule]. *)
Module Piece.

Import HOSCalculator.

Definition start (cycle : Q) (now : datetime) (current : Location)
  : RoutePoint :=
  mkRoutePoint current now now "Off Duty" 0 cycle cycle.

Definition pickup (cycle : Q) (now : datetime) (pickup_loc : Location)
    (distance_to_pickup : Q) : RoutePoint :=
  let drive_time := _calculate_drive_time distance_to_pickup in
  let arrival := now + timedelta_hours drive_time in
  mkRoutePoint pickup_loc arrival (arrival + timedelta_hours PICKUP_TIME)
    "On Duty" distance_to_pickup
    (cycle + drive_time) (cycle + (drive_time + PICKUP_TIME)).

Definition dropoff (at_pickup : RoutePoint) (dropoff_loc : Location)
    (distance_pickup_to_dropoff : Q) : RoutePoint :=
  let drive_time := _calculate_drive_time distance_pickup_to_dropoff in
  let arrival := departure_time at_pickup + timedelta_hours drive_time in
  mkRoutePoint dropoff_loc arrival (arrival + timedelta_hours DROPOFF_TIME)
    "On Duty" (miles_from_start at_pickup + distance_pickup_to_dropoff)
    (cumulative_driving_hours at_pickup + drive_time)
    (cumulative_duty_hours at_pickup + (drive_time + DROPOFF_TIME)).

(** The test that guards the final rest, on the dropoff segment. *)
Definition needs_rest (handling : RoutePoint) : bool :=
  Qle_bool MAX_DRIVING_HOURS (cumulative_driving_hours handling)
  || Qle_bool MAX_DUTY_HOURS (cumulative_duty_hours handling).

Definition rest (handling : RoutePoint) : RoutePoint :=
  mkRoutePoint (location handling)
    (departure_time handling)
    (departure_time handling + timedelta_hours MIN_OFF_DUTY_HOURS)
    "Off Duty" (miles_from_start handling) 0 0.

Definition break_ (start_loc : Location) (start_time : datetime)
    (driving duty : Q) : RoutePoint :=
  mkRoutePoint start_loc start_time
    (start_time + timedelta_hours BREAK_DURATION)
    "Off Duty" 0 driving duty.

End Piece.

(** The three messages of the compliance checker. *)
Definition driving_limit_message (p : RoutePoint) : string :=
  "Violation: Exceeded 11-hour driving limit at " ++ name (location p).
Definition duty_limit_message (p : RoutePoint) : string :=
  "Violation: Exceeded 14-hour duty limit at " ++ name (location p).
Definition cycle_limit_message (p : RoutePoint) : string :=
  "Violation: Exceeded 70-hour/8-day limit at " ++ name (location p).

(** What the specification asks of the checker for one segment: one message
    per limit that is strictly exceeded, in this order. *)
Definition segment_messages (p : RoutePoint) : list string :=
  ((if Qlt_bool 11 (cumulative_driving_hours p)
    then [driving_limit_message p] else [])
   ++ (if Qlt_bool 14 (cumulative_duty_hours p)
       then [duty_limit_message p] else [])
   ++ (if Qlt_bool 70 (cumulative_duty_hours p)
       then [cycle_limit_message p] else []))%list.

(** What the specification asks of the fuel-stop planner for a leg of length
    [L]: [fractions] lists [k * 1000 / L] for [k = 1, 2, ...] as long as
    [k * 1000 < L]. *)
Definition leg_fractions (L : Q) (fractions : list Q) : Prop :=
  (forall k : nat, (k < List.length fractions)%nat ->
     nth k fractions 0 == inject_Z (Z.of_nat (S k)) * 1000 / L)
  /\ (forall k : nat, (1 <= k)%nat ->
        (inject_Z (Z.of_nat k) * 1000 < L
         <-> (k <= List.length fractions)%nat)).


(** [marks] are the successive values of [miles_so_far] in a fuelling loop
    started at [from]: [from + 1000], [from + 2000], ... as long as they stay
    strictly below [limit]. *)
Definition loop_marks (from limit : Q) (marks : list Q) : Prop :=
  (forall k : nat, (k < List.length marks)%nat ->
     nth k marks 0 == from + inject_Z (Z.of_nat (S k)) * 1000)
  /\ (forall k : nat, (1 <= k)%nat ->
        (from + inject_Z (Z.of_nat k) * 1000 < limit
         <-> (k <= List.length marks)%nat)).

(** A running state of a leg with [pre] put in front of its points. *)
Definition with_points (pre : list RoutePoint) (st : HOSCalculator.leg_state)
  : HOSCalculator.leg_state :=
  HOSCalculator.mkLeg
    (pre ++ HOSCalculator.segment_points st)%list
    (HOSCalculator.current_time st) (HOSCalculator.current_miles st)
    (HOSCalculator.current_driving st) (HOSCalculator.current_duty st).

(** What a leg emits once the break check is behind it: the fuel loop and the
    final arrival, from the running state [(t, 0, driving, duty)]. *)
Definition leg_after_check (dist : Location -> Location -> Q)
    (start end_ : Location) (distance : Q)
    (t : datetime) (driving duty : Q) (stops : list Location)
  : list RoutePoint :=
  HOSCalculator.final_arrival end_ distance
    (fold_left (HOSCalculator.fuel_stop dist start distance) stops
       (HOSCalculator.mkLeg [] t 0 driving duty)).

(** ** Vocabulary of the further properties *)

(** The answer Nominatim gives for a place it knows: a successful response
    whose JSON is a list starting with an object. *)
Definition first_result (response : http_response)
    (members : list (string * json)) : Prop :=
  status_ok response = true
  /\ exists others, body response = Some (JArr (JObj members :: others)).

(** Every cached location bears the name it is cached under. *)
Definition cache_named (cache : list (string * Location)) : Prop :=
  forall key cached,
    HOSCalculator.cache_get cache key = Some cached -> name cached = key.

Definition summary_keys : list string :=
  ["Driving"; "On Duty"; "Sleeper"; "Off Duty"]%string.

(** The status of [p] is a key of the summary. *)
Definition known_status (p : RoutePoint) : bool :=
  existsb (String.eqb (status p)) summary_keys.

(** The hours a summary adds up to. *)
Definition summary_total (summary : list (string * Q)) : Q :=
  fold_right (fun entry total => snd entry + total) 0 summary.

(** The time spent between the points of a schedule, and at them. *)
Fixpoint hours_between (schedule : list RoutePoint) : Q :=
  match schedule with
  | current :: rest =>
      match rest with
      | next_point :: _ =>
          (arrival_time next_point - departure_time current)
          + hours_between rest
      | [] => 0
      end
  | [] => 0
  end.

Definition hours_at (schedule : list RoutePoint) : Q :=
  fold_right (fun p total => (departure_time p - arrival_time p) + total)
             0 schedule.

(** The entry of [key] in a summary, and the hours the summary loop adds to
    it: the time from each point of status [key] to the next point. *)
Fixpoint dict_value (summary : list (string * Q)) (key : string) : Q :=
  match summary with
  | [] => 0
  | (k, v) :: rest => if String.eqb k key then v else dict_value rest key
  end.

Fixpoint hours_after (key : string) (schedule : list RoutePoint) : Q :=
  match schedule with
  | current :: rest =>
      match rest with
      | next_point :: _ =>
          (if String.eqb (status current) key
           then arrival_time next_point - departure_time current else 0)
          + hours_after key rest
      | [] => 0
      end
  | [] => 0
  end.

(** [x] lies between [a] and [b], whichever is the greater. *)
Definition between (a b x : Q) : Prop :=
  (a <= x /\ x <= b) \/ (b <= x /\ x <= a).

(** * Properties *)

Import HOSCalculator.

(** ** The resolver fails soft *)

Section ResolverFacts.

Variable http_get : string -> result http_response.
Variable parse_float : string -> option Q.
Variable stdout_print : string -> exn -> result unit.

(** What the handler does with an exception of the [try] block. *)
Lemma geocode_location_handler (location_str : string) (cause : exn) :
  geocode_request http_get parse_float location_str = Raise cause ->
  geocode_location http_get parse_float stdout_print location_str
  = (_ <- stdout_print location_str cause ;; Ok default_coordinates).
Proof. unfold geocode_location. intros ->. reflexivity. Qed.

Lemma geocode_location_passes (location_str : string) (coords : Q * Q) :
  geocode_request http_get parse_float location_str = Ok coords ->
  geocode_location http_get parse_float stdout_print location_str = Ok coords.
Proof. unfold geocode_location. intros ->. reflexivity. Qed.

(** The only exceptions that leave [geocode_location] are those of the
    handler's [print]. *)
Lemma geocode_location_raises (location_str : string) (e : exn) :
  geocode_location http_get parse_float stdout_print location_str = Raise e ->
  exists cause,
    geocode_request http_get parse_float location_str = Raise cause
    /\ stdout_print location_str cause = Raise e.
Proof.
  unfold geocode_location, try_except.
  destruct (geocode_request http_get parse_float location_str)
    as [coords | cause]; [discriminate|].
  destruct (stdout_print location_str cause) as [[] | e'] eqn:Hprint;
    cbn [bind]; [discriminate|].
  intros H. injection H as <-. exists cause. split; [reflexivity | exact Hprint].
Qed.

(** A request that raises, a bad status code and a body that is not JSON
    all leave the [try] block by an exception. *)
Lemma geocode_request_lookup_error (location_str : string) :
  match http_get location_str with
  | Raise _ => True
  | Ok response => status_ok response = false \/ body response = None
  end ->
  exists e, geocode_request http_get parse_float location_str = Raise e.
Proof.
  unfold geocode_request.
  destruct (http_get location_str) as [response | e]; simpl.
  - unfold Py.raise_for_status, Py.response_json.
    destruct (status_ok response); simpl.
    + intros [H | H]; [discriminate|]. rewrite H. simpl. eauto.
    + intros _. eauto.
  - intros _. eauto.
Qed.

(** A response whose JSON value is falsy ([[]], [{}], [null], ...) takes the
    [else] branch. *)
Lemma geocode_request_empty (location_str : string) response data :
  http_get location_str = Ok response ->
  status_ok response = true ->
  body response = Some data ->
  Py.truthy data = false ->
  geocode_request http_get parse_float location_str
  = Ok default_coordinates.
Proof.
  intros Hget Hok Hbody Hfalsy. unfold geocode_request.
  rewrite Hget. simpl. unfold Py.raise_for_status, Py.response_json.
  rewrite Hok, Hbody. simpl. rewrite Hfalsy. reflexivity.
Qed.

End ResolverFacts.

(** ** The shape of a schedule *)

Local Open Scope list_scope.

(** Linear arithmetic over the rationals, after the engine's conversions
    between miles and hours are unfolded. *)
Ltac qarith :=
  unfold _calculate_drive_time, timedelta_hours, timedelta_minutes,
    BREAK_THRESHOLD, BREAK_DURATION, PICKUP_TIME, DROPOFF_TIME,
    MAX_DRIVING_HOURS, MAX_DUTY_HOURS, MAX_70_HOUR_WINDOW,
    MIN_OFF_DUTY_HOURS, Qdiv in *;
  change (/ 55) with (1 # 55) in *;
  change (/ 60) with (1 # 60) in *;
  lra.

Section EngineFacts.

Variable dist : Location -> Location -> Q.

Let add_leg := _add_driving_segment dist.

(** A schedule is the start point, the first leg, the pickup, the second
    leg, the dropoff and, when the test asks for it, the rest. *)
Lemma schedule_shape (s : self) (now : datetime)
    (current pickup dropoff : Location) (d1 d2 : Q)
    (stops : list Location) :
  let cycle := current_cycle_used s in
  let at_pickup := Piece.pickup cycle now pickup d1 in
  let at_dropoff := Piece.dropoff at_pickup dropoff d2 in
  _generate_duty_schedule dist s now current pickup dropoff d1 d2 stops
  = Piece.start cycle now current
      :: add_leg current pickup d1 now cycle cycle stops
      ++ at_pickup
      :: add_leg pickup dropoff d2 (departure_time at_dropoff)
           (cumulative_driving_hours at_pickup)
           (cumulative_duty_hours at_pickup) []
      ++ at_dropoff
      :: (if Piece.needs_rest at_dropoff then [Piece.rest at_dropoff]
          else []).
Proof.
  intros cycle at_pickup at_dropoff.
  unfold _generate_duty_schedule. cbv zeta.
  fold cycle.
  change (Qle_bool MAX_DRIVING_HOURS _ || Qle_bool MAX_DUTY_HOURS _)
    with (Piece.needs_rest at_dropoff).
  destruct (Piece.needs_rest at_dropoff);
    rewrite <- ?app_assoc; reflexivity.
Qed.

(** *** One leg *)

Lemma fuel_stops_invariant (I : leg_state -> Prop) start distance :
  (forall st stop, I st -> I (fuel_stop dist start distance st stop)) ->
  forall stops st,
    I st -> I (fold_left (fuel_stop dist start distance) stops st).
Proof.
  intros Hstep stops. induction stops as [|stop stops IH]; intros st Hst.
  - exact Hst.
  - simpl. apply IH. apply Hstep. exact Hst.
Qed.

(** An iteration of the fuel loop either skips the stop or emits one
    On Duty point and moves the running state to it. *)
Lemma fuel_stop_cases start distance st stop :
  fuel_stop dist start distance st stop = st
  \/ exists p,
       fuel_stop dist start distance st stop
       = mkLeg (segment_points st ++ [p]) (departure_time p)
           (miles_from_start p) (cumulative_driving_hours p)
           (cumulative_duty_hours p)
       /\ status p = "On Duty"
       /\ location p = stop
       /\ miles_from_start p = current_miles st + dist start stop
       /\ cumulative_driving_hours p
          = current_driving st + _calculate_drive_time (dist start stop)
       /\ cumulative_duty_hours p
          = current_duty st + _calculate_drive_time (dist start stop)
            + (1 # 2)
       /\ arrival_time p
          = current_time st + _calculate_drive_time (dist start stop)
       /\ departure_time p = arrival_time p + timedelta_minutes 30.
Proof.
  unfold fuel_stop.
  destruct (Qlt_bool (current_miles st) distance); [right | left; reflexivity].
  set (hours := _calculate_drive_time (dist start stop)).
  exists (mkRoutePoint stop
            (current_time st + timedelta_hours hours)
            (current_time st + timedelta_hours hours + timedelta_minutes 30)
            "On Duty"
            (current_miles st + dist start stop)
            (current_driving st + hours)
            (current_duty st + hours + (1 # 2))).
  repeat split; reflexivity.
Qed.

Lemma break_check_cases start t driving duty :
  break_check start (mkLeg [] t 0 driving duty)
  = if Qle_bool BREAK_THRESHOLD driving
    then mkLeg [Piece.break_ start t driving duty]
           (t + timedelta_hours BREAK_DURATION) 0 0 (duty + BREAK_DURATION)
    else mkLeg [] t 0 driving duty.
Proof.
  unfold break_check. cbn [current_driving].
  destruct (Qle_bool BREAK_THRESHOLD driving); reflexivity.
Qed.

(** A leg, from the state in which the fuel loop leaves it. *)
Lemma leg_unfold start end_ distance t driving duty stops :
  add_leg start end_ distance t driving duty stops
  = final_arrival end_ distance
      (fold_left (fuel_stop dist start distance) stops
         (break_check start (mkLeg [] t 0 driving duty))).
Proof. reflexivity. Qed.

(** A leg without fuel stops is the break, when one is due, and the
    arrival. *)
Lemma leg_without_stops start end_ distance t driving duty :
  add_leg start end_ distance t driving duty []
  = (if Qle_bool BREAK_THRESHOLD driving
     then [Piece.break_ start t driving duty] else [])
    ++ [mkRoutePoint end_
          ((if Qle_bool BREAK_THRESHOLD driving
            then t + timedelta_hours BREAK_DURATION else t)
           + timedelta_hours (_calculate_drive_time (distance - 0)))
          ((if Qle_bool BREAK_THRESHOLD driving
            then t + timedelta_hours BREAK_DURATION else t)
           + timedelta_hours (_calculate_drive_time (distance - 0)))
          "Driving" distance
          ((if Qle_bool BREAK_THRESHOLD driving then 0 else driving)
           + _calculate_drive_time (distance - 0))
          ((if Qle_bool BREAK_THRESHOLD driving
            then duty + BREAK_DURATION else duty)
           + _calculate_drive_time (distance - 0))].
Proof.
  rewrite leg_unfold, break_check_cases. cbn [fold_left].
  destruct (Qle_bool BREAK_THRESHOLD driving); reflexivity.
Qed.

Lemma count_status_app st l1 l2 :
  count_status st (l1 ++ l2) = (count_status st l1 + count_status st l2)%nat.
Proof. unfold count_status. rewrite filter_app, length_app. reflexivity. Qed.

(** Driving hours stay below duty hours along a leg. *)
Lemma leg_driving_le_duty start end_ distance t driving duty stops :
  driving <= duty ->
  Forall (fun p => cumulative_driving_hours p <= cumulative_duty_hours p)
         (add_leg start end_ distance t driving duty stops).
Proof.
  intros Hle. rewrite leg_unfold.
  set (ok := fun p => cumulative_driving_hours p <= cumulative_duty_hours p).
  set (I := fun st => Forall ok (segment_points st)
                      /\ current_driving st <= current_duty st).
  assert (Hfuel : I (fold_left (fuel_stop dist start distance) stops
                       (break_check start (mkLeg [] t 0 driving duty)))).
  { apply fuel_stops_invariant.
    - intros st stop [Hpts Hst].
      destruct (fuel_stop_cases start distance st stop)
        as [-> | (p & -> & _ & _ & _ & Hd & Hu & _)]; [split; assumption|].
      assert (Hp : ok p) by (unfold ok; rewrite Hd, Hu; qarith).
      split; cbn [segment_points current_driving current_duty].
      + apply Forall_app. split; [exact Hpts | constructor; [exact Hp|constructor]].
      + exact Hp.
    - rewrite break_check_cases.
      destruct (Qle_bool BREAK_THRESHOLD driving) eqn:E;
        split; cbn [segment_points current_driving current_duty].
      + constructor; [exact Hle | constructor].
      + apply Qle_bool_iff in E. qarith.
      + constructor.
      + exact Hle. }
  destruct Hfuel as [Hpts Hst]. unfold final_arrival.
  apply Forall_app. split; [exact Hpts|].
  constructor; [|constructor]. unfold ok. cbn. qarith.
Qed.

(** The statuses a leg emits. *)
Lemma leg_statuses start end_ distance t driving duty stops :
  Forall (fun p => status p = "Off Duty" \/ status p = "On Duty"
                   \/ status p = "Driving")
         (add_leg start end_ distance t driving duty stops).
Proof.
  rewrite leg_unfold.
  set (ok := fun p => status p = "Off Duty" \/ status p = "On Duty"
                      \/ status p = "Driving").
  assert (Hfuel : Forall ok (segment_points
             (fold_left (fuel_stop dist start distance) stops
                (break_check start (mkLeg [] t 0 driving duty))))).
  { apply (fuel_stops_invariant (fun st => Forall ok (segment_points st))).
    - intros st stop Hpts.
      destruct (fuel_stop_cases start distance st stop)
        as [-> | (p & -> & Hs & _)]; [assumption|].
      cbn [segment_points]. apply Forall_app. split; [exact Hpts|].
      constructor; [right; left; exact Hs | constructor].
    - rewrite break_check_cases.
      destruct (Qle_bool BREAK_THRESHOLD driving); cbn [segment_points].
      + constructor; [left; reflexivity | constructor].
      + constructor. }
  unfold final_arrival. apply Forall_app. split; [exact Hfuel|].
  constructor; [right; right; reflexivity | constructor].
Qed.

(** The only Off Duty point of a leg is the break taken on entry. *)
Lemma leg_off_duty_count start end_ distance t driving duty stops :
  count_status "Off Duty" (add_leg start end_ distance t driving duty stops)
  = if Qle_bool BREAK_THRESHOLD driving then 1%nat else 0%nat.
Proof.
  rewrite leg_unfold.
  set (n := if Qle_bool BREAK_THRESHOLD driving then 1%nat else 0%nat).
  assert (Hfuel : count_status "Off Duty" (segment_points
             (fold_left (fuel_stop dist start distance) stops
                (break_check start (mkLeg [] t 0 driving duty)))) = n).
  { apply (fuel_stops_invariant
             (fun st => count_status "Off Duty" (segment_points st) = n)).
    - intros st stop Hpts.
      destruct (fuel_stop_cases start distance st stop)
        as [-> | (p & -> & Hs & _)]; [assumption|].
      cbn [segment_points]. rewrite count_status_app, Hpts.
      unfold count_status. cbn [filter]. rewrite Hs. cbn. lia.
    - rewrite break_check_cases. unfold n.
      destruct (Qle_bool BREAK_THRESHOLD driving); reflexivity. }
  unfold final_arrival. rewrite count_status_app, Hfuel.
  unfold count_status. cbn. lia.
Qed.

(** The points already emitted do not influence the rest of a leg. *)
Lemma fuel_stop_with_points pre start distance st stop :
  fuel_stop dist start distance (with_points pre st) stop
  = with_points pre (fuel_stop dist start distance st stop).
Proof.
  unfold fuel_stop, with_points.
  cbn [segment_points current_time current_miles current_driving
       current_duty].
  destruct (Qlt_bool (current_miles st) distance);
    cbn [segment_points current_time current_miles current_driving
         current_duty];
    rewrite ?app_assoc; reflexivity.
Qed.

Lemma fuel_loop_with_points pre start distance stops :
  forall st,
    fold_left (fuel_stop dist start distance) stops (with_points pre st)
    = with_points pre (fold_left (fuel_stop dist start distance) stops st).
Proof.
  induction stops as [|stop stops IH]; intros st; [reflexivity|].
  cbn [fold_left]. rewrite fuel_stop_with_points. apply IH.
Qed.

Lemma final_arrival_with_points pre end_ distance st :
  final_arrival end_ distance (with_points pre st)
  = pre ++ final_arrival end_ distance st.
Proof. unfold final_arrival, with_points. cbn. apply eq_sym, app_assoc. Qed.

Lemma leg_with_break start end_ distance t driving duty stops :
  Qle_bool BREAK_THRESHOLD driving = true ->
  add_leg start end_ distance t driving duty stops
  = Piece.break_ start t driving duty
      :: leg_after_check dist start end_ distance
           (t + timedelta_hours BREAK_DURATION) 0 (duty + BREAK_DURATION)
           stops.
Proof.
  intros E. rewrite leg_unfold, break_check_cases, E.
  change (mkLeg [Piece.break_ start t driving duty]
            (t + timedelta_hours BREAK_DURATION) 0 0 (duty + BREAK_DURATION))
    with (with_points [Piece.break_ start t driving duty]
            (mkLeg [] (t + timedelta_hours BREAK_DURATION) 0 0
               (duty + BREAK_DURATION))).
  rewrite fuel_loop_with_points, final_arrival_with_points. reflexivity.
Qed.

Lemma leg_without_break start end_ distance t driving duty stops :
  Qle_bool BREAK_THRESHOLD driving = false ->
  add_leg start end_ distance t driving duty stops
  = leg_after_check dist start end_ distance t driving duty stops.
Proof. intros E. rewrite leg_unfold, break_check_cases, E. reflexivity. Qed.

(** A leg entered with the cycle exhausted ends in a Driving point that is
    over the 70-hour limit; nothing before it is a Driving point. *)
Lemma leg_entered_at_cycle_limit start end_ distance t cycle stops :
  70 <= cycle ->
  0 <= distance ->
  exists pre p,
    add_leg start end_ distance t cycle cycle stops = pre ++ [p]
    /\ Forall (fun q => status q <> "Driving") pre
    /\ status p = "Driving"
    /\ location p = end_
    /\ 70 < cumulative_duty_hours p.
Proof.
  intros Hcycle Hdist. rewrite leg_unfold.
  set (I := fun st =>
              Forall (fun q => status q <> "Driving") (segment_points st)
              /\ 70 + (1 # 2) + current_miles st / 55 <= current_duty st).
  assert (Hfuel : I (fold_left (fuel_stop dist start distance) stops
                       (break_check start (mkLeg [] t 0 cycle cycle)))).
  { apply fuel_stops_invariant.
    - intros st stop [Hpts Hst].
      destruct (fuel_stop_cases start distance st stop)
        as [-> | (p & -> & Hs & _ & Hm & _ & Hu & _)]; [split; assumption|].
      split; cbn [segment_points current_miles current_duty].
      + apply Forall_app. split; [exact Hpts|].
        constructor; [rewrite Hs; discriminate | constructor].
      + rewrite Hm, Hu. qarith.
    - rewrite break_check_cases.
      assert (E : Qle_bool BREAK_THRESHOLD cycle = true)
        by (apply Qle_bool_iff; qarith).
      rewrite E. split; cbn [segment_points current_miles current_duty].
      + constructor; [discriminate | constructor].
      + qarith. }
  destruct Hfuel as [Hpts Hst]. unfold final_arrival.
  eexists _, _. split; [reflexivity|].
  split; [exact Hpts|]. cbn [status location cumulative_duty_hours].
  repeat split. qarith.
Qed.

(** *** The compliance checker *)

Lemma check_point_messages violations point :
  check_point violations point = violations ++ segment_messages point.
Proof.
  unfold check_point, segment_messages, MAX_DRIVING_HOURS, MAX_DUTY_HOURS,
    MAX_70_HOUR_WINDOW.
  fold (driving_limit_message point) (duty_limit_message point)
       (cycle_limit_message point).
  destruct (Qlt_bool 11 (cumulative_driving_hours point)),
           (Qlt_bool 14 (cumulative_duty_hours point)),
           (Qlt_bool 70 (cumulative_duty_hours point));
    cbn [app]; rewrite <- ?app_assoc, ?app_nil_r; reflexivity.
Qed.

Lemma check_loop_messages schedule :
  forall violations,
    fold_left check_point schedule violations
    = violations ++ flat_map segment_messages schedule.
Proof.
  induction schedule as [|point schedule IH]; intros violations.
  - cbn. rewrite app_nil_r. reflexivity.
  - cbn [fold_left flat_map]. rewrite IH, check_point_messages.
    rewrite <- app_assoc. reflexivity.
Qed.

Lemma check_violations_messages schedule :
  _check_violations schedule = flat_map segment_messages schedule.
Proof. unfold _check_violations. apply check_loop_messages. Qed.

(** *** The fuelling loop *)

Lemma inject_succ (k : nat) :
  inject_Z (Z.of_nat (S k)) == inject_Z (Z.of_nat k) + 1.
Proof. rewrite Nat2Z.inj_succ, <- Z.add_1_r, inject_Z_plus. reflexivity. Qed.

Lemma inject_nat_nonneg (k : nat) : 0 <= inject_Z (Z.of_nat k).
Proof. change 0 with (inject_Z 0). rewrite <- Zle_Qle. lia. Qed.

Lemma fueling_loop_marks limit place miles_so_far stops :
  exists marks,
    fueling_loop limit place miles_so_far stops = stops ++ map place marks
    /\ loop_marks miles_so_far limit marks.
Proof.
  funelim (fueling_loop limit place miles_so_far stops).
  - (* the guard holds: one more stop, then the loop again *)
    destruct H as (marks & Hloop & Hnth & Hbound).
    exists ((miles_so_far + FUELING_INTERVAL) :: marks). split.
    + rewrite Hloop, <- app_assoc. reflexivity.
    + unfold FUELING_INTERVAL in *. split.
      * intros [|k] Hk; cbn [nth].
        -- change (inject_Z (Z.of_nat 1)) with 1. lra.
        -- rewrite (Hnth k) by (cbn in Hk; lia).
           rewrite (inject_succ (S k)). lra.
      * intros [|k] Hk; [lia|]. cbn [List.length].
        destruct k as [|k].
        -- change (inject_Z (Z.of_nat 1)) with 1.
           split; [lia | intros _; lra].
        -- rewrite (inject_succ (S k)).
           specialize (Hbound (S k) ltac:(lia)).
           split; intros Hlt.
           ++ apply le_n_S, Hbound. lra.
           ++ apply le_S_n in Hlt. apply Hbound in Hlt. lra.
  - (* the guard fails: the loop is over *)
    exists []. split; [cbn; rewrite app_nil_r; reflexivity|].
    unfold FUELING_INTERVAL in *. split.
    + intros k Hk. cbn in Hk. lia.
    + intros k Hk. cbn [List.length]. split; [|lia].
      intros Hlt. exfalso.
      destruct k as [|k]; [lia|].
      pose proof (inject_succ k) as Hs.
      pose proof (inject_nat_nonneg k) as Hk0.
      nra.
Qed.

Lemma fueling_stops_fractions (current pickup dropoff : Location) :
  exists fractions1 fractions2,
    _calculate_fueling_stops dist current pickup dropoff
    = map (_interpolate_location current pickup) fractions1
      ++ map (_interpolate_location pickup dropoff) fractions2
    /\ leg_fractions (dist current pickup) fractions1
    /\ leg_fractions (dist pickup dropoff) fractions2.
Proof.
  unfold _calculate_fueling_stops. cbv zeta.
  set (d1 := dist current pickup). set (d2 := dist pickup dropoff).
  destruct (fueling_loop_marks d1
              (fun m => _interpolate_location current pickup (m / d1)) 0 [])
    as (marks1 & -> & Hnth1 & Hbound1).
  destruct (fueling_loop_marks (d1 + d2)
              (fun m => _interpolate_location pickup dropoff ((m - d1) / d2))
              d1
              ([] ++ map (fun m => _interpolate_location current pickup
                                     (m / d1)) marks1))
    as (marks2 & -> & Hnth2 & Hbound2).
  exists (map (fun m => m / d1) marks1),
         (map (fun m => (m - d1) / d2) marks2).
  rewrite !map_map. split; [reflexivity|].
  split; split.
  - intros k Hk. rewrite length_map in Hk.
    rewrite (nth_indep _ 0 (0 / d1)) by (rewrite length_map; exact Hk).
    rewrite (map_nth (fun m => m / d1)), (Hnth1 k Hk).
    apply Qmult_comp; [lra | reflexivity].
  - intros k Hk. rewrite length_map, <- (Hbound1 k Hk).
    split; intros H; lra.
  - intros k Hk. rewrite length_map in Hk.
    rewrite (nth_indep _ 0 ((0 - d1) / d2)) by (rewrite length_map; exact Hk).
    rewrite (map_nth (fun m => (m - d1) / d2)), (Hnth2 k Hk).
    apply Qmult_comp; [lra | reflexivity].
  - intros k Hk. rewrite length_map, <- (Hbound2 k Hk).
    split; intros H; lra.
Qed.

Lemma leg_fractions_short (L : Q) (fractions : list Q) :
  leg_fractions L fractions -> L <= 1000 -> fractions = [].
Proof.
  intros [_ Hbound] HL. destruct fractions as [|x fractions]; [reflexivity|].
  exfalso. assert (H : inject_Z (Z.of_nat 1) * 1000 < L).
  { apply Hbound; cbn; lia. }
  change (inject_Z (Z.of_nat 1)) with 1 in H. lra.
Qed.


(** *** Timestamps and miles along a list *)

Lemma chronological_adjacent pre a b post :
  chronological (pre ++ a :: b :: post) ->
  departure_time a <= arrival_time b.
Proof.
  induction pre as [|x pre IH]; cbn [app chronological].
  - intros (_ & H & _). exact H.
  - intros (_ & _ & H). apply IH. exact H.
Qed.

Lemma miles_adjacent pre a b post :
  miles_nondecreasing (pre ++ a :: b :: post) ->
  miles_from_start a <= miles_from_start b.
Proof.
  induction pre as [|x pre IH]; cbn [app miles_nondecreasing].
  - intros (H & _). exact H.
  - intros (_ & H). apply IH. exact H.
Qed.

(** The second leg is scheduled from the departure time of the dropoff, so
    its arrival comes after the dropoff that follows it in the list. *)
Lemma generated_schedule_not_chronological s now current pickup dropoff
    d1 d2 stops :
  0 <= d2 ->
  ~ chronological
      (_generate_duty_schedule dist s now current pickup dropoff d1 d2 stops).
Proof.
  intros Hd2 Hchron. rewrite schedule_shape in Hchron. cbv zeta in Hchron.
  rewrite leg_without_stops in Hchron.
  set (at_pickup := Piece.pickup (current_cycle_used s) now pickup d1) in *.
  set (at_dropoff := Piece.dropoff at_pickup dropoff d2) in *.
  match type of Hchron with
  | chronological (?start :: ?leg1 ++ ?pick :: (?brk ++ [?final]) ++ ?drop :: ?tail) =>
      assert (H : departure_time final <= arrival_time drop);
      [ apply (chronological_adjacent (start :: leg1 ++ pick :: brk) final drop tail);
        revert Hchron;
        repeat first [rewrite <- app_assoc | progress cbn [app]];
        exact (fun H => H)
      | ]
  end.
  clear Hchron. cbn [departure_time arrival_time] in H.
  unfold at_dropoff, Piece.dropoff, at_pickup, Piece.pickup in H.
  cbn [departure_time arrival_time] in H.
  match type of H with
  | context [if ?b then _ else _] => destruct b
  end; qarith.
Qed.

(** The points of the second leg carry miles counted from the pickup, so
    the column goes down after the pickup whenever the second leg is the
    shorter one. *)
Lemma generated_schedule_miles_go_down s now current pickup dropoff
    d1 d2 stops :
  0 <= d2 -> d2 < d1 ->
  ~ miles_nondecreasing
      (_generate_duty_schedule dist s now current pickup dropoff d1 d2 stops).
Proof.
  intros Hd2 Hlt Hmiles. rewrite schedule_shape in Hmiles.
  cbv zeta in Hmiles. rewrite leg_without_stops in Hmiles.
  set (at_pickup := Piece.pickup (current_cycle_used s) now pickup d1) in *.
  match type of Hmiles with
  | context [if ?b then _ else _] => destruct b
  end.
  - match type of Hmiles with
    | miles_nondecreasing (?start :: ?leg1 ++ ?pick :: ([?brk] ++ ?rest) ++ ?tail) =>
        assert (H : miles_from_start pick <= miles_from_start brk);
        [ apply (miles_adjacent (start :: leg1) pick brk (rest ++ tail));
          revert Hmiles;
          repeat first [rewrite <- app_assoc | progress cbn [app]];
          exact (fun H => H)
        | ]
    end.
    cbn in H. lra.
  - match type of Hmiles with
    | miles_nondecreasing (?start :: ?leg1 ++ ?pick :: ([] ++ [?final]) ++ ?tail) =>
        assert (H : miles_from_start pick <= miles_from_start final);
        [ apply (miles_adjacent (start :: leg1) pick final tail);
          revert Hmiles;
          repeat first [rewrite <- app_assoc | progress cbn [app]];
          exact (fun H => H)
        | ]
    end.
    cbn in H. lra.
Qed.

(** *** Whole schedules *)

Lemma generated_schedule_driving_le_duty s now current pickup dropoff
    d1 d2 stops :
  Forall (fun p => cumulative_driving_hours p <= cumulative_duty_hours p)
    (_generate_duty_schedule dist s now current pickup dropoff d1 d2 stops).
Proof.
  rewrite schedule_shape. cbv zeta.
  set (cycle := current_cycle_used s).
  assert (Hpick : cumulative_driving_hours (Piece.pickup cycle now pickup d1)
                  <= cumulative_duty_hours (Piece.pickup cycle now pickup d1))
    by (cbn; qarith).
  constructor; [cbn; lra|].
  apply Forall_app. split; [apply leg_driving_le_duty; lra|].
  constructor; [exact Hpick|].
  apply Forall_app. split; [apply leg_driving_le_duty; exact Hpick|].
  constructor; [cbn; qarith|].
  destruct (Piece.needs_rest _); constructor; [cbn; lra | constructor].
Qed.

Lemma generated_schedule_statuses s now current pickup dropoff
    d1 d2 stops :
  Forall (fun p => status p = "Off Duty" \/ status p = "On Duty"
                   \/ status p = "Driving")
    (_generate_duty_schedule dist s now current pickup dropoff d1 d2 stops).
Proof.
  rewrite schedule_shape. cbv zeta.
  constructor; [left; reflexivity|].
  apply Forall_app. split; [apply leg_statuses|].
  constructor; [right; left; reflexivity|].
  apply Forall_app. split; [apply leg_statuses|].
  constructor; [right; left; reflexivity|].
  destruct (Piece.needs_rest _); constructor;
    [left; reflexivity | constructor].
Qed.

(** *** The orchestrator *)

Variable http_get : string -> result http_response.
Variable parse_float : string -> option Q.
Variable stdout_print : string -> exn -> result unit.

Lemma parse_location_raises (s : self) (location_str : string) (e : exn) :
  _parse_location http_get parse_float stdout_print s location_str = Raise e ->
  print_raised stdout_print e.
Proof.
  unfold _parse_location.
  destruct (cache_get (location_cache s) location_str) as [cached|];
    [discriminate|].
  destruct (geocode_location http_get parse_float stdout_print location_str)
    as [[lat lon] | e'] eqn:Hgeo; cbn [bind]; [discriminate|].
  intros H. injection H as <-.
  destruct (geocode_location_raises _ _ _ _ _ Hgeo) as (cause & _ & Hprint).
  exists location_str, cause. exact Hprint.
Qed.

Lemma parse_location_cycle (s s' : self) (location_str : string) location :
  _parse_location http_get parse_float stdout_print s location_str
  = Ok (location, s') ->
  current_cycle_used s' = current_cycle_used s.
Proof.
  unfold _parse_location.
  destruct (cache_get (location_cache s) location_str) as [cached|].
  - intros H. injection H as <- <-. reflexivity.
  - destruct (geocode_location http_get parse_float stdout_print location_str)
      as [[lat lon] | e]; cbn [bind]; [|discriminate].
    intros H. injection H as <- <-. reflexivity.
Qed.

(** [calculate_route] looks the three names up in turn and assembles its
    result from the three locations; it returns unless one of the lookups
    lets an exception of the handler's [print] through. *)
Lemma calculate_route_steps (s : self) (now : datetime)
    (current_location pickup_location dropoff_location : string)
    (cycle : Q) (P : RouteDetails * self -> Prop) :
  (forall current pickup dropoff s1 s2 s3,
     _parse_location http_get parse_float stdout_print
       (mkSelf cycle (location_cache s)) current_location
     = Ok (current, s1) ->
     _parse_location http_get parse_float stdout_print s1 pickup_location
     = Ok (pickup, s2) ->
     _parse_location http_get parse_float stdout_print s2 dropoff_location
     = Ok (dropoff, s3) ->
     P (let d1 := dist current pickup in
        let d2 := dist pickup dropoff in
        let stops := _calculate_fueling_stops dist current pickup dropoff in
        let schedule :=
          _generate_duty_schedule dist s3 now current pickup dropoff
            d1 d2 stops in
        mkRouteDetails (d1 + d2) (_calculate_total_time schedule)
          stops schedule (_check_violations schedule), s3)) ->
  returns_unless_print stdout_print
    (calculate_route dist http_get parse_float stdout_print s now
       current_location pickup_location dropoff_location cycle)
    P.
Proof.
  intros HP. unfold calculate_route, returns_unless_print.
  case_eq (_parse_location http_get parse_float stdout_print
             (mkSelf cycle (location_cache s)) current_location);
    [intros [current s1] H1 | intros e H1]; cbn [bind];
    [|exact (parse_location_raises _ _ _ H1)].
  case_eq (_parse_location http_get parse_float stdout_print s1
             pickup_location);
    [intros [pickup s2] H2 | intros e H2]; cbn [bind];
    [|exact (parse_location_raises _ _ _ H2)].
  case_eq (_parse_location http_get parse_float stdout_print s2
             dropoff_location);
    [intros [dropoff s3] H3 | intros e H3]; cbn [bind];
    [|exact (parse_location_raises _ _ _ H3)].
  exact (HP current pickup dropoff s1 s2 s3 H1 H2 H3).
Qed.

Lemma calculate_route_outcome (s : self) (now : datetime)
    (current_location pickup_location dropoff_location : string)
    (cycle : Q) (P : RouteDetails * self -> Prop) :
  (forall current pickup dropoff s',
     current_cycle_used s' = cycle ->
     P (let d1 := dist current pickup in
        let d2 := dist pickup dropoff in
        let stops := _calculate_fueling_stops dist current pickup dropoff in
        let schedule :=
          _generate_duty_schedule dist s' now current pickup dropoff
            d1 d2 stops in
        mkRouteDetails (d1 + d2) (_calculate_total_time schedule)
          stops schedule (_check_violations schedule), s')) ->
  returns_unless_print stdout_print
    (calculate_route dist http_get parse_float stdout_print s now
       current_location pickup_location dropoff_location cycle)
    P.
Proof.
  intros HP. apply calculate_route_steps.
  intros current pickup dropoff s1 s2 s3 H1 H2 H3.
  apply HP.
  rewrite (parse_location_cycle _ _ _ _ H3), (parse_location_cycle _ _ _ _ H2),
    (parse_location_cycle _ _ _ _ H1).
  reflexivity.
Qed.

End EngineFacts.

(** ** The claims of the specification *)

Section Claims.

Variable dist : Location -> Location -> Q.
Variable http_get : string -> result http_response.
Variable parse_float : string -> option Q.
Variable stdout_print : string -> exn -> result unit.

(** C8. [geocode_location] does not always return.  Its handler catches
    every exception of the [try] block and falls back to the default pair
    (40.7128, -74.0060), but it prints a line first: when that [print]
    raises, the exception reaches the caller and no pair is returned.  When
    the [print] returns the default pair is returned, for a request that
    raises, a bad status code or a body that is not JSON alike; an empty
    (falsy) answer gives the default pair without any [print]; and nothing
    but an exception of that [print] ever leaves the function. *)
Theorem geocode_location_raises_when_print_raises (location_str : string) :
  (forall cause e,
      geocode_request http_get parse_float location_str = Raise cause ->
      stdout_print location_str cause = Raise e ->
      geocode_location http_get parse_float stdout_print location_str
      = Raise e)
  /\ (forall cause,
        geocode_request http_get parse_float location_str = Raise cause ->
        stdout_print location_str cause = Ok tt ->
        geocode_location http_get parse_float stdout_print location_str
        = Ok default_coordinates)
  /\ (match http_get location_str with
      | Raise _ => True
      | Ok response => status_ok response = false \/ body response = None
      end ->
      exists cause,
        geocode_request http_get parse_float location_str = Raise cause)
  /\ (forall response data,
        http_get location_str = Ok response ->
        status_ok response = true ->
        body response = Some data ->
        Py.truthy data = false ->
        geocode_location http_get parse_float stdout_print location_str
        = Ok default_coordinates)
  /\ (forall e,
        geocode_location http_get parse_float stdout_print location_str
        = Raise e ->
        exists cause,
          geocode_request http_get parse_float location_str = Raise cause
          /\ stdout_print location_str cause = Raise e).
Proof.
  split; [|split; [|split; [|split]]].
  - intros cause e Hcause Hprint.
    rewrite (geocode_location_handler _ _ _ _ _ Hcause), Hprint. reflexivity.
  - intros cause Hcause Hprint.
    rewrite (geocode_location_handler _ _ _ _ _ Hcause), Hprint. reflexivity.
  - apply geocode_request_lookup_error.
  - intros response data Hget Hok Hbody Hfalsy.
    apply geocode_location_passes.
    apply (geocode_request_empty http_get parse_float location_str
             response data Hget Hok Hbody Hfalsy).
  - apply geocode_location_raises.
Qed.

(** C6. The compliance checker treats every segment on its own: its result
    is the concatenation, in the order of the schedule and without removing
    repetitions, of the messages of each segment, one per limit strictly
    exceeded (driving > 11, duty > 14, duty > 70).  A segment whose duty
    hours are 75 contributes both the 14-hour and the 70-hour message, next
    to each other, wherever it stands in the schedule. *)
Theorem check_violations_per_segment (schedule : list RoutePoint) :
  _check_violations schedule = flat_map segment_messages schedule
  /\ (forall before p after,
        schedule = before ++ p :: after ->
        cumulative_duty_hours p == 75 ->
        exists driving_part,
          (driving_part = [] \/ driving_part = [driving_limit_message p])
          /\ _check_violations schedule
             = _check_violations before
               ++ (driving_part
                   ++ [duty_limit_message p; cycle_limit_message p])
               ++ _check_violations after).
Proof.
  split; [apply check_violations_messages|].
  intros before p after -> Hduty.
  rewrite !check_violations_messages, flat_map_app. cbn [flat_map].
  assert (H14 : Qlt_bool 14 (cumulative_duty_hours p) = true)
    by (apply Qlt_bool_iff; lra).
  assert (H70 : Qlt_bool 70 (cumulative_duty_hours p) = true)
    by (apply Qlt_bool_iff; lra).
  unfold segment_messages at 2. rewrite H14, H70.
  destruct (Qlt_bool 11 (cumulative_driving_hours p)).
  - exists [driving_limit_message p]. split; [right; reflexivity|].
    reflexivity.
  - exists []. split; [left; reflexivity|]. reflexivity.
Qed.


(** C4. On entry to a leg, with the driving hours carried in: when they are
    8 or more, the leg starts with one Off Duty point at the leg's starting
    location lasting half an hour, and goes on from a driving counter of
    zero and a duty counter raised by half an hour; this is the only Off
    Duty point of the leg, whatever the fuel stops add later.  When they
    are below 8 the leg has no Off Duty point and goes on from the counters
    as they were. *)
Theorem break_check_on_entry (start end_ : Location) (distance : Q)
    (t : datetime) (driving duty : Q) (stops : list Location) :
  let leg :=
    _add_driving_segment dist start end_ distance t driving duty stops in
  (8 <= driving ->
     exists break_point,
       leg = break_point
               :: leg_after_check dist start end_ distance
                    (t + (1 # 2)) 0 (duty + (1 # 2)) stops
       /\ location break_point = start
       /\ status break_point = "Off Duty"
       /\ arrival_time break_point = t
       /\ departure_time break_point = t + (1 # 2)
       /\ count_status "Off Duty" leg = 1%nat)
  /\ (driving < 8 ->
        leg = leg_after_check dist start end_ distance t driving duty stops
        /\ count_status "Off Duty" leg = 0%nat).
Proof.
  intros leg. split.
  - intros H. assert (E : Qle_bool BREAK_THRESHOLD driving = true)
      by (apply Qle_bool_iff; exact H).
    exists (Piece.break_ start t driving duty).
    split; [apply leg_with_break; exact E|].
    repeat split. unfold leg. rewrite leg_off_duty_count, E. reflexivity.
  - intros H. assert (E : Qle_bool BREAK_THRESHOLD driving = false)
      by (apply Qle_bool_false_iff; exact H).
    split; [apply leg_without_break; exact E|].
    unfold leg. rewrite leg_off_duty_count, E. reflexivity.
Qed.

(** C2. In every schedule the second leg, which lies between the pickup
    point and the dropoff point, is scheduled with the empty list of fuel
    stops and holds no On Duty point, whatever its length; the fuel stops
    computed for the trip, those of both legs, are passed to the first leg
    only. *)
Theorem second_leg_gets_no_fuel_stops (s : self) (now : datetime)
    (current_location pickup_location dropoff_location : string)
    (cycle : Q) :
  returns_unless_print stdout_print
    (calculate_route dist http_get parse_float stdout_print s now
             current_location pickup_location dropoff_location cycle)
    (fun '(details, _) =>
       exists current pickup dropoff at_pickup second_leg at_dropoff tail,
         fueling_stops details
         = _calculate_fueling_stops dist current pickup dropoff
         /\ duty_schedule details
            = Piece.start cycle now current
                :: _add_driving_segment dist current pickup
                     (dist current pickup) now cycle cycle
                     (fueling_stops details)
                ++ at_pickup :: second_leg ++ at_dropoff :: tail
         /\ at_pickup = Piece.pickup cycle now pickup (dist current pickup)
         /\ at_dropoff
            = Piece.dropoff at_pickup dropoff (dist pickup dropoff)
         /\ second_leg
            = _add_driving_segment dist pickup dropoff
                (dist pickup dropoff) (departure_time at_dropoff)
                (cumulative_driving_hours at_pickup)
                (cumulative_duty_hours at_pickup) []
         /\ Forall (fun p => status p <> "On Duty") second_leg
         /\ (tail = [] \/ tail = [Piece.rest at_dropoff])).
Proof.
  apply calculate_route_outcome. intros current pickup dropoff s' Hcycle.
  cbv beta iota zeta. cbn [fueling_stops duty_schedule].
  rewrite schedule_shape, Hcycle. cbv zeta.
  eexists current, pickup, dropoff, _, _, _, _.
  split; [reflexivity|]. split; [reflexivity|].
  split; [reflexivity|]. split; [reflexivity|]. split; [reflexivity|].
  split.
  - rewrite leg_without_stops.
    destruct (Qle_bool BREAK_THRESHOLD _);
      repeat constructor; cbn; discriminate.
  - destruct (Piece.needs_rest _); [right | left]; reflexivity.
Qed.

(** C3. A schedule ends with the dropoff point, followed by exactly one
    more point when the driving hours of the dropoff point are 11 or more
    or its duty hours are 14 or more, and by nothing otherwise.  That point
    is Off Duty at the dropoff location, starts when the dropoff point ends,
    lasts 10 hours and carries driving and duty hours 0; the points before
    it, the dropoff point included, keep the counters they were built
    with. *)
Theorem mandatory_rest_after_dropoff (s : self) (now : datetime)
    (current_location pickup_location dropoff_location : string)
    (cycle : Q) :
  returns_unless_print stdout_print
    (calculate_route dist http_get parse_float stdout_print s now
             current_location pickup_location dropoff_location cycle)
    (fun '(details, _) =>
       exists current pickup dropoff,
         let at_pickup :=
           Piece.pickup cycle now pickup (dist current pickup) in
         let at_dropoff :=
           Piece.dropoff at_pickup dropoff (dist pickup dropoff) in
         let before :=
           Piece.start cycle now current
             :: _add_driving_segment dist current pickup
                  (dist current pickup) now cycle cycle
                  (fueling_stops details)
             ++ at_pickup
             :: _add_driving_segment dist pickup dropoff
                  (dist pickup dropoff) (departure_time at_dropoff)
                  (cumulative_driving_hours at_pickup)
                  (cumulative_duty_hours at_pickup) [] in
         let rest :=
           mkRoutePoint dropoff
             (departure_time at_dropoff) (departure_time at_dropoff + 10)
             "Off Duty" (miles_from_start at_dropoff) 0 0 in
         (11 <= cumulative_driving_hours at_dropoff
          \/ 14 <= cumulative_duty_hours at_dropoff ->
          duty_schedule details = before ++ [at_dropoff; rest])
         /\ (cumulative_driving_hours at_dropoff < 11
             /\ cumulative_duty_hours at_dropoff < 14 ->
             duty_schedule details = before ++ [at_dropoff])).
Proof.
  apply calculate_route_outcome. intros current pickup dropoff s' Hcycle.
  cbv beta iota zeta. cbn [fueling_stops duty_schedule].
  rewrite schedule_shape, Hcycle. cbv zeta.
  exists current, pickup, dropoff.
  set (at_pickup := Piece.pickup cycle now pickup (dist current pickup)).
  set (at_dropoff := Piece.dropoff at_pickup dropoff (dist pickup dropoff)).
  destruct (Piece.needs_rest at_dropoff) eqn:E; unfold Piece.needs_rest in E.
  - split.
    + intros _.
      repeat first [rewrite <- app_assoc | progress cbn [app]].
      reflexivity.
    + intros [Hd Hu]. exfalso.
      apply orb_true_iff in E. destruct E as [E | E];
        apply Qle_bool_iff in E; unfold MAX_DRIVING_HOURS, MAX_DUTY_HOURS in E;
        lra.
  - split.
    + intros H. exfalso.
      apply orb_false_iff in E. destruct E as [Ed Eu].
      apply Qle_bool_false_iff in Ed, Eu.
      unfold MAX_DRIVING_HOURS, MAX_DUTY_HOURS in *.
      destruct H; lra.
    + intros _.
      repeat first [rewrite <- app_assoc | progress cbn [app]].
      reflexivity.
Qed.

(** C7. The first point of a schedule carries the caller's cycle hours
    as its driving hours and as its duty hours, and the first leg is
    scheduled from these two counters.  With 70 cycle hours, the first
    Driving point of the schedule has more than 70 duty hours and the
    violations hold the 70-hour/8-day message for it.  Distances are never
    negative; the first leg may have any length, zero included. *)
Theorem cycle_hours_seed_both_counters (s : self) (now : datetime)
    (current_location pickup_location dropoff_location : string)
    (cycle : Q) :
  (forall a b, 0 <= dist a b) ->
  returns_unless_print stdout_print
    (calculate_route dist http_get parse_float stdout_print s now
             current_location pickup_location dropoff_location cycle)
    (fun '(details, _) =>
       (exists current pickup others,
          duty_schedule details
          = mkRoutePoint current now now "Off Duty" 0 cycle cycle
              :: _add_driving_segment dist current pickup
                   (dist current pickup) now cycle cycle
                   (fueling_stops details)
              ++ others)
       /\ (cycle == 70 ->
           exists pre p post,
             duty_schedule details = pre ++ p :: post
             /\ Forall (fun q => status q <> "Driving") pre
             /\ status p = "Driving"
             /\ 70 < cumulative_duty_hours p
             /\ In (cycle_limit_message p) (segment_messages p)
             /\ In (cycle_limit_message p) (violations details))).
Proof.
  intros Hdist.
  apply calculate_route_outcome. intros current pickup dropoff s' Hcycle.
  cbv beta iota zeta.
  cbn [fueling_stops duty_schedule violations].
  rewrite check_violations_messages, schedule_shape, Hcycle. cbv zeta.
  split; [eexists current, pickup, _; reflexivity|].
  intros H70.
  destruct (leg_entered_at_cycle_limit dist current pickup
              (dist current pickup) now cycle
              (_calculate_fueling_stops dist current pickup dropoff))
    as (pre & p & Hleg & Hpre & Hp & _ & Hduty); [lra | apply Hdist |].
  rewrite Hleg.
  assert (Hmsg : In (cycle_limit_message p) (segment_messages p)).
  { unfold segment_messages.
    assert (E : Qlt_bool 70 (cumulative_duty_hours p) = true)
      by (apply Qlt_bool_iff; exact Hduty).
    rewrite E. apply in_or_app. right. apply in_or_app. right.
    left. reflexivity. }
  eexists (Piece.start cycle now current :: pre), p, _.
  split; [cbn [app]; rewrite <- app_assoc; reflexivity|].
  split; [constructor; [discriminate | exact Hpre]|].
  split; [exact Hp|]. split; [exact Hduty|]. split; [exact Hmsg|].
  apply in_flat_map. exists p. split; [|exact Hmsg].
  right. apply in_or_app. left. apply in_or_app. right. left. reflexivity.
Qed.

(** C9. In every schedule, whatever the cycle hours (so in particular when
    they are zero or more), each point has driving hours at most equal to
    its duty hours. *)
Theorem driving_hours_le_duty_hours (s : self) (now : datetime)
    (current_location pickup_location dropoff_location : string)
    (cycle : Q) :
  returns_unless_print stdout_print
    (calculate_route dist http_get parse_float stdout_print s now
             current_location pickup_location dropoff_location cycle)
    (fun '(details, _) =>
       Forall
         (fun p => cumulative_driving_hours p <= cumulative_duty_hours p)
         (duty_schedule details)).
Proof.
  apply calculate_route_outcome. intros current pickup dropoff s' Hcycle.
  cbv beta iota zeta. cbn [duty_schedule].
  apply generated_schedule_driving_le_duty.
Qed.

(** C10. Every point of every schedule is Off Duty, On Duty or Driving;
    none is Sleeper. *)
Theorem no_sleeper_status (s : self) (now : datetime)
    (current_location pickup_location dropoff_location : string)
    (cycle : Q) :
  returns_unless_print stdout_print
    (calculate_route dist http_get parse_float stdout_print s now
             current_location pickup_location dropoff_location cycle)
    (fun '(details, _) =>
       Forall
         (fun p => (status p = "Off Duty" \/ status p = "On Duty"
                    \/ status p = "Driving")
                   /\ status p <> "Sleeper")
         (duty_schedule details)).
Proof.
  apply calculate_route_outcome. intros current pickup dropoff s' Hcycle.
  cbv beta iota zeta. cbn [duty_schedule].
  eapply Forall_impl; [|apply generated_schedule_statuses].
  intros p H. split; [exact H|].
  destruct H as [H | [H | H]]; rewrite H; discriminate.
Qed.

(** C1. The timestamps of a schedule are never in order: the second leg is
    scheduled from the departure time of the dropoff instead of that of the
    pickup, so its Driving point ends after the dropoff point, which comes
    next in the list, begins.  This holds for every trip, distances being
    never negative. *)
Theorem schedule_never_chronological (s : self) (now : datetime)
    (current_location pickup_location dropoff_location : string)
    (cycle : Q) :
  (forall a b, 0 <= dist a b) ->
  returns_unless_print stdout_print
    (calculate_route dist http_get parse_float stdout_print s now
             current_location pickup_location dropoff_location cycle)
    (fun '(details, _) => ~ chronological (duty_schedule details)).
Proof.
  intros Hdist.
  apply calculate_route_outcome. intros current pickup dropoff s' Hcycle.
  cbv beta iota zeta. cbn [duty_schedule].
  apply generated_schedule_not_chronological. apply Hdist.
Qed.

End Claims.

(** ** The claims on worked examples *)

(** With a standard output that takes every line the call returns. *)
Lemma returns_when_quiet {A} (r : result A) (P R : A -> Prop) :
  returns_unless_print Examples.quiet_stdout r P ->
  (forall a, P a -> R a) -> returns r R.
Proof.
  destruct r as [a | e]; cbn; [intros H HR; apply HR, H|].
  intros (location_str & cause & H) _. discriminate H.
Defined.

Lemma grid_distance_nonneg (a b : Location) : 0 <= Examples.grid_distance a b.
Proof.
  unfold Examples.grid_distance.
  pose proof (Qabs_nonneg (latitude b - latitude a)).
  pose proof (Qabs_nonneg (longitude b - longitude a)).
  apply Qmult_le_0_compat; lra.
Defined.

(** The trip from Chicago to Chicago to Chicago, with no hours on the clock:
    start, arrival at the pickup, pickup (one hour), arrival at the dropoff,
    dropoff.  The arrival at the dropoff is stamped at hour 2, the dropoff
    that follows it begins at hour 1. *)
Example same_place_trip_timestamps :
  returns (Examples.same_place_trip 0)
    (fun details =>
       map (fun p => (status p, Qred (arrival_time p), Qred (departure_time p)))
           (duty_schedule details)
       = [("Off Duty", 0, 0); ("Driving", 0, 0); ("On Duty", 0, 1);
          ("Driving", 2, 2); ("On Duty", 1, 2)]).
Proof. vm_compute. reflexivity. Qed.

(** From New York to Chicago (737.5 grid miles) to Los Angeles (1912.5 grid
    miles): the one fuel stop of the trip lies on the second leg and is
    visited during the first. *)
Example coast_to_coast_statuses :
  returns (Examples.coast_to_coast 0)
    (fun details =>
       map (fun p => (status p, name (location p))) (duty_schedule details)
       = [("Off Duty", "New York");
          ("On Duty", "Fuel Stop at 37.70, -103.70");
          ("Driving", "Chicago"); ("On Duty", "Chicago");
          ("Off Duty", "Chicago"); ("Driving", "Los Angeles");
          ("On Duty", "Los Angeles"); ("Off Duty", "Los Angeles")]
       /\ List.length (fueling_stops details) = 1%nat).
Proof. vm_compute. split; reflexivity. Qed.

Lemma schedule_never_chronological_witness :
  returns (calculate_route Examples.grid_distance Examples.offline
             Examples.parse_float Examples.quiet_stdout __init__ 0
             "Chicago" "Chicago" "Chicago" 0)
    (fun '(details, _) => ~ chronological (duty_schedule details)).
Proof.
  apply (returns_when_quiet _ _ _
           (schedule_never_chronological Examples.grid_distance
              Examples.offline Examples.parse_float Examples.quiet_stdout
              __init__ 0 "Chicago" "Chicago" "Chicago" 0
              grid_distance_nonneg)).
  intros [details s'] H. exact H.
Defined.

Lemma cycle_hours_seed_both_counters_witness :
  returns (calculate_route Examples.grid_distance Examples.gazetteer
             Examples.parse_float Examples.quiet_stdout __init__ 0
             "New York" "Chicago" "Los Angeles" 70)
    (fun '(details, _) =>
       exists pre p post,
         duty_schedule details = pre ++ p :: post
         /\ Forall (fun q => status q <> "Driving") pre
         /\ status p = "Driving"
         /\ 70 < cumulative_duty_hours p
         /\ In (cycle_limit_message p) (violations details)).
Proof.
  apply (returns_when_quiet _ _ _
           (cycle_hours_seed_both_counters Examples.grid_distance
              Examples.gazetteer Examples.parse_float Examples.quiet_stdout
              __init__ 0 "New York" "Chicago" "Los Angeles" 70
              grid_distance_nonneg)).
  intros [details s'] [_ H].
  destruct (H ltac:(reflexivity)) as (pre & p & post & H1 & H2 & H3 & H4 & _ & H5).
  exists pre, p, post. repeat split; assumption.
Defined.

(** [Zürich] while the service cannot be reached and the standard output is
    in ASCII: the request raises, the handler's [print] raises in turn and
    the caller gets that exception instead of a pair.  The same holds for
    the name ['\ud800'] with a standard output in UTF-8.  A place the
    service does not know, and a service that is down with a standard output
    that prints, give the default pair. *)
Lemma geocode_location_raises_when_print_raises_witness :
  geocode_location Examples.offline Examples.parse_float
    Examples.ascii_stdout Examples.zurich
  = Raise UnicodeEncodeError
  /\ geocode_location Examples.strict_service Examples.parse_float
       Examples.utf8_stdout Examples.lone_surrogate
     = Raise UnicodeEncodeError
  /\ geocode_location Examples.gazetteer Examples.parse_float
       Examples.quiet_stdout "Atlantis"
     = Ok default_coordinates
  /\ geocode_location Examples.offline Examples.parse_float
       Examples.quiet_stdout "Chicago"
     = Ok default_coordinates.
Proof.
  split; [|split; [|split]].
  - apply (proj1 (geocode_location_raises_when_print_raises
                    Examples.offline Examples.parse_float
                    Examples.ascii_stdout Examples.zurich)
             ConnectionError UnicodeEncodeError);
      reflexivity.
  - apply (proj1 (geocode_location_raises_when_print_raises
                    Examples.strict_service Examples.parse_float
                    Examples.utf8_stdout Examples.lone_surrogate)
             UnicodeEncodeError UnicodeEncodeError);
      reflexivity.
  - apply (proj1 (proj2 (proj2 (proj2
             (geocode_location_raises_when_print_raises
                Examples.gazetteer Examples.parse_float
                Examples.quiet_stdout "Atlantis"))))
             (mkResponse true (Some (JArr []))) (JArr []));
      reflexivity.
  - apply (proj1 (proj2 (geocode_location_raises_when_print_raises
                           Examples.offline Examples.parse_float
                           Examples.quiet_stdout "Chicago"))
             ConnectionError);
      reflexivity.
Defined.

(** The exception goes on through [_parse_location] and [calculate_route]:
    the caller of [calculate_hos_route] gets no route. *)
Example route_to_zurich_raises :
  calculate_hos_route Examples.grid_distance Examples.offline
    Examples.parse_float Examples.ascii_stdout 0
    "Chicago" Examples.zurich "Chicago" 0
  = Raise UnicodeEncodeError.
Proof. reflexivity. Qed.

Lemma check_violations_per_segment_witness :
  exists driving_part,
    (driving_part = [] \/ driving_part = [driving_limit_message Examples.overworked])
    /\ _check_violations [Examples.overworked]
       = _check_violations []
         ++ (driving_part
             ++ ["Violation: Exceeded 14-hour duty limit at Depot";
                 "Violation: Exceeded 70-hour/8-day limit at Depot"])
         ++ _check_violations [].
Proof.
  apply (proj2 (check_violations_per_segment [Examples.overworked]) [] Examples.overworked []);
    reflexivity.
Defined.


Lemma break_check_on_entry_witness :
  (exists break_point,
     _add_driving_segment Examples.grid_distance Examples.depot Examples.yard
       550 0 9 10 []
     = break_point
         :: leg_after_check Examples.grid_distance Examples.depot Examples.yard
              550 (0 + (1 # 2)) 0 (10 + (1 # 2)) []
     /\ location break_point = Examples.depot
     /\ status break_point = "Off Duty"
     /\ arrival_time break_point = 0
     /\ departure_time break_point = 0 + (1 # 2)
     /\ count_status "Off Duty"
          (_add_driving_segment Examples.grid_distance Examples.depot
             Examples.yard 550 0 9 10 []) = 1%nat)
  /\ count_status "Off Duty"
       (_add_driving_segment Examples.grid_distance Examples.depot
          Examples.yard 550 0 7 10 []) = 0%nat.
Proof.
  split.
  - apply (break_check_on_entry Examples.grid_distance Examples.depot
             Examples.yard 550 0 9 10 []).
    vm_compute. discriminate.
  - apply (break_check_on_entry Examples.grid_distance Examples.depot
             Examples.yard 550 0 7 10 []).
    vm_compute. reflexivity.
Defined.

Lemma mandatory_rest_after_dropoff_witness :
  returns (calculate_route Examples.grid_distance Examples.offline
             Examples.parse_float Examples.quiet_stdout __init__ 0
             "Chicago" "Chicago" "Chicago" 13)
    (fun '(details, _) =>
       exists before at_dropoff rest,
         duty_schedule details = before ++ [at_dropoff; rest]
         /\ status rest = "Off Duty"
         /\ departure_time rest == arrival_time rest + 10
         /\ cumulative_driving_hours rest = 0
         /\ cumulative_duty_hours rest = 0).
Proof.
  apply (returns_when_quiet _ _ _
           (mandatory_rest_after_dropoff Examples.grid_distance
              Examples.offline Examples.parse_float Examples.quiet_stdout
              __init__ 0 "Chicago" "Chicago" "Chicago" 13)).
  intros [details s'] (current & pickup & dropoff & Hrest & _).
  eexists _, _, _. split.
  - apply Hrest. right. cbn.
    pose proof (grid_distance_nonneg current pickup).
    pose proof (grid_distance_nonneg pickup dropoff).
    qarith.
  - cbn. split; [reflexivity|]. split; [apply Qeq_refl|].
    split; reflexivity.
Defined.

(** * Further properties of the code *)

(** ** The resolver: where a returned pair comes from *)

Section ResolverOrigin.

Variable http_get : string -> result http_response.
Variable parse_float : string -> option Q.
Variable stdout_print : string -> exn -> result unit.

(** X1. When the service answers with a list whose first element is an
    object holding convertible ["lat"] and ["lon"] values, the resolver
    returns exactly that pair, whatever follows in the list. *)
Theorem geocode_location_first_result (location_str : string)
    (response : http_response) (members : list (string * json))
    (lat_field lon_field : json) (lat lon : Q) :
  http_get location_str = Ok response ->
  first_result response members ->
  Py.dict_get members "lat" = Ok lat_field ->
  py_float parse_float lat_field = Ok lat ->
  Py.dict_get members "lon" = Ok lon_field ->
  py_float parse_float lon_field = Ok lon ->
  geocode_location http_get parse_float stdout_print location_str
  = Ok (lat, lon).
Proof.
  intros Hget (Hok & others & Hbody) Hlat Hlatf Hlon Hlonf.
  unfold geocode_location, geocode_request.
  rewrite Hget. cbn [bind].
  unfold Py.raise_for_status, Py.response_json. rewrite Hok, Hbody.
  cbn [bind Py.truthy Py.len List.length Nat.ltb Nat.leb Py.item0 Py.item].
  rewrite Hlat. cbn [bind]. rewrite Hlatf. cbn [bind].
  rewrite Hlon. cbn [bind]. rewrite Hlonf. reflexivity.
Qed.

(** What the [try] block returns is the default pair of its [else] branch
    or the pair read in the first result. *)
Lemma geocode_request_origin (location_str : string) :
  match geocode_request http_get parse_float location_str with
  | Ok coords =>
      coords = default_coordinates
      \/ exists response members lat_field lon_field,
           http_get location_str = Ok response
           /\ first_result response members
           /\ Py.dict_get members "lat" = Ok lat_field
           /\ py_float parse_float lat_field = Ok (fst coords)
           /\ Py.dict_get members "lon" = Ok lon_field
           /\ py_float parse_float lon_field = Ok (snd coords)
  | Raise _ => True
  end.
Proof.
  unfold geocode_request.
  destruct (http_get location_str) as [response | e] eqn:Hget; [|exact I].
  cbn [bind]. unfold Py.raise_for_status, Py.response_json.
  destruct (status_ok response) eqn:Hok; [|exact I].
  cbn [bind].
  destruct (body response) as [data|] eqn:Hbody; [|exact I].
  cbn [bind].
  destruct data as [ | b | x | str | items | members ].
  - left. reflexivity.
  - destruct b; first [exact I | left; reflexivity].
  - cbn [Py.truthy]. destruct (negb (Qeq_bool x 0));
      first [exact I | left; reflexivity].
  - cbn [Py.truthy Py.len].
    destruct (negb (str =? "")%string); [|left; reflexivity].
    cbn [bind]. destruct (0 <? String.length str)%nat;
      [|first [exact I | left; reflexivity]].
    destruct str as [|c str]; first [exact I | left; reflexivity].
  - destruct items as [|first others]; [left; reflexivity|].
    cbn [Py.truthy Py.len bind List.length Nat.ltb Nat.leb Py.item0].
    destruct first as [ | b | x | str | items | members ];
      try exact I.
    cbn [Py.item].
    destruct (Py.dict_get members "lat") as [lat_field | e] eqn:Hlat;
      [|exact I].
    cbn [bind].
    destruct (py_float parse_float lat_field) as [lat | e] eqn:Hlatf;
      [|exact I].
    cbn [bind].
    destruct (Py.dict_get members "lon") as [lon_field | e] eqn:Hlon;
      [|exact I].
    cbn [bind].
    destruct (py_float parse_float lon_field) as [lon | e] eqn:Hlonf;
      [|exact I].
    cbn [bind]. right.
    exists response, members, lat_field, lon_field.
    split; [reflexivity|]. split; [split; [exact Hok | eauto]|].
    repeat split; assumption.
  - cbn [Py.truthy Py.len].
    destruct members as [|m members]; first [exact I | left; reflexivity].
Qed.

(** X2. What the resolver returns, when it returns, is the default pair or
    the ["lat"] and ["lon"] of the first element of a list answered with a
    successful status, and nothing else.  When it raises instead, the [try]
    block had raised and the exception is the one the handler's [print]
    raised on that name. *)
Theorem geocode_location_origin (location_str : string) :
  match geocode_location http_get parse_float stdout_print location_str with
  | Ok coords =>
      coords = default_coordinates
      \/ exists response members lat_field lon_field,
           http_get location_str = Ok response
           /\ first_result response members
           /\ Py.dict_get members "lat" = Ok lat_field
           /\ py_float parse_float lat_field = Ok (fst coords)
           /\ Py.dict_get members "lon" = Ok lon_field
           /\ py_float parse_float lon_field = Ok (snd coords)
  | Raise e =>
      exists cause,
        geocode_request http_get parse_float location_str = Raise cause
        /\ stdout_print location_str cause = Raise e
  end.
Proof.
  pose proof (geocode_request_origin location_str) as Horigin.
  unfold geocode_location, try_except.
  destruct (geocode_request http_get parse_float location_str)
    as [coords | cause]; [exact Horigin|].
  destruct (stdout_print location_str cause) as [[] | e] eqn:Hprint;
    cbn [bind].
  - left. reflexivity.
  - exists cause. split; [reflexivity | exact Hprint].
Qed.

End ResolverOrigin.

Lemma geocode_location_first_result_witness :
  geocode_location Examples.gazetteer Examples.parse_float
    Examples.quiet_stdout "Chicago"
  = Ok (4175 # 100, - (8775 # 100)).
Proof.
  apply (geocode_location_first_result Examples.gazetteer Examples.parse_float
           Examples.quiet_stdout
           "Chicago" (Examples.place "41.75" "-87.75")
           [("lat", JStr "41.75"); ("lon", JStr "-87.75")]
           (JStr "41.75") (JStr "-87.75")).
  - reflexivity.
  - split; [reflexivity|]. exists []. reflexivity.
  - reflexivity.
  - reflexivity.
  - reflexivity.
  - reflexivity.
Defined.

(** ** The location cache *)

Section CacheFacts.

Variable dist : Location -> Location -> Q.
Variable http_get : string -> result http_response.
Variable parse_float : string -> option Q.
Variable stdout_print : string -> exn -> result unit.

Lemma parse_location_hit (service : string -> result http_response)
    (to_float : string -> option Q)
    (printer : string -> exn -> result unit) (s : self)
    (location_str : string) cached :
  cache_get (location_cache s) location_str = Some cached ->
  _parse_location service to_float printer s location_str = Ok (cached, s).
Proof. unfold _parse_location. intros ->. reflexivity. Qed.

Lemma cache_get_head (cache : list (string * Location)) key location :
  cache_get ((key, location) :: cache) key = Some location.
Proof. cbn [cache_get]. rewrite String.eqb_refl. reflexivity. Qed.

Lemma cache_get_older (cache : list (string * Location)) key location
    other cached :
  cache_get cache key = None ->
  cache_get cache other = Some cached ->
  cache_get ((key, location) :: cache) other = Some cached.
Proof.
  intros Hnone Hsome. cbn [cache_get].
  destruct (String.eqb key other) eqn:E; [|exact Hsome].
  apply String.eqb_eq in E. subst other. congruence.
Qed.

(** A lookup leaves the calculator with the location under its name, keeps
    what was cached before and does not touch the cycle hours. *)
Lemma parse_location_grows (s s' : self) (location_str : string) location :
  _parse_location http_get parse_float stdout_print s location_str
  = Ok (location, s') ->
  cache_get (location_cache s') location_str = Some location
  /\ current_cycle_used s' = current_cycle_used s
  /\ (forall key cached,
        cache_get (location_cache s) key = Some cached ->
        cache_get (location_cache s') key = Some cached).
Proof.
  unfold _parse_location.
  destruct (cache_get (location_cache s) location_str) as [cached|] eqn:Hget.
  - intros H. injection H as <- <-. repeat split; auto.
  - destruct (geocode_location http_get parse_float stdout_print location_str)
      as [[lat lon] | e]; cbn [bind]; [|discriminate].
    intros H. injection H as <- <-.
    cbn [location_cache current_cycle_used].
    split; [apply cache_get_head|]. split; [reflexivity|].
    intros key cached Hkey. apply cache_get_older; assumption.
Qed.

(** X3. A lookup that returns has stored the location under its name: the
    same lookup on the calculator it returns gives the same location and
    leaves that calculator as it is, whatever the service answers and
    whatever the standard output does by then; entries cached earlier are
    kept.  A lookup that raises instead raises what the handler's [print]
    raised. *)
Theorem parse_location_is_cached (s : self) (location_str : string) :
  returns_unless_print stdout_print
    (_parse_location http_get parse_float stdout_print s location_str)
    (fun '(location, s') =>
       cache_get (location_cache s') location_str = Some location
       /\ (forall key cached,
             cache_get (location_cache s) key = Some cached ->
             cache_get (location_cache s') key = Some cached)
       /\ forall http_get' parse_float' stdout_print',
            _parse_location http_get' parse_float' stdout_print' s'
              location_str
            = Ok (location, s')).
Proof.
  unfold returns_unless_print.
  case_eq (_parse_location http_get parse_float stdout_print s location_str);
    [intros [location s'] Heq | intros e Heq];
    [|eapply parse_location_raises; exact Heq].
  destruct (parse_location_grows s s' location_str location Heq)
    as (Hget & _ & Hkeep).
  split; [exact Hget|]. split; [exact Hkeep|].
  intros http_get' parse_float' stdout_print'.
  apply parse_location_hit. exact Hget.
Qed.

Lemma self_eta (s : self) :
  mkSelf (current_cycle_used s) (location_cache s) = s.
Proof. destruct s. reflexivity. Qed.

(** X4. A calculator that has computed a route computes the same route
    again for the same three names, time and cycle hours without the
    service: the second result, calculator included, is the first one
    whatever the service and [float] would answer. *)
Theorem calculate_route_again (s : self) (now : datetime)
    (current_location pickup_location dropoff_location : string)
    (cycle : Q) :
  returns_unless_print stdout_print
    (calculate_route dist http_get parse_float stdout_print s now
             current_location pickup_location dropoff_location cycle)
    (fun '(details, s') =>
       forall http_get' parse_float' stdout_print',
         calculate_route dist http_get' parse_float' stdout_print' s' now
           current_location pickup_location dropoff_location cycle
         = Ok (details, s')).
Proof.
  apply calculate_route_steps.
  intros current pickup dropoff s1 s2 s3 H1 H2 H3.
  cbv beta iota zeta.
  destruct (parse_location_grows _ _ _ _ H1) as (G1 & C1 & _).
  destruct (parse_location_grows _ _ _ _ H2) as (G2 & C2 & K2).
  destruct (parse_location_grows _ _ _ _ H3) as (G3 & C3 & K3).
  cbn [current_cycle_used] in C1.
  assert (Hs3 : mkSelf cycle (location_cache s3) = s3).
  { rewrite <- (self_eta s3). f_equal. rewrite C3, C2, C1. reflexivity. }
  intros http_get' parse_float' stdout_print'.
  unfold calculate_route. rewrite Hs3.
  rewrite (parse_location_hit http_get' parse_float' stdout_print' s3
             current_location current)
    by (apply K3, K2, G1).
  cbn [bind].
  rewrite (parse_location_hit http_get' parse_float' stdout_print' s3
             pickup_location pickup)
    by (apply K3, G2).
  cbn [bind].
  rewrite (parse_location_hit http_get' parse_float' stdout_print' s3
             dropoff_location dropoff)
    by exact G3.
  reflexivity.
Qed.

End CacheFacts.

(** ** One leg, whatever the fuel stops *)

Section LegFacts.

Variable dist : Location -> Location -> Q.

Lemma count_on_duty_snoc (points : list RoutePoint) (p : RoutePoint) :
  status p = "On Duty" ->
  inject_Z (Z.of_nat (count_status "On Duty" (points ++ [p])))
  == inject_Z (Z.of_nat (count_status "On Duty" points)) + 1.
Proof.
  intros Hs. rewrite count_status_app.
  unfold count_status at 2. cbn [filter]. rewrite Hs. cbn [String.eqb].
  change (List.length [p]) with 1%nat.
  rewrite Nat.add_1_r. apply inject_succ.
Qed.

(** X5. The books of a leg balance whatever the fuel stops are: its last
    point is the Driving point at the destination, stamped with the leg's
    distance, and its counters and its time are those on entry plus the
    half hour of the break when one is taken, half an hour for each fuel
    point of the leg and the drive time of the leg's distance.  The hours
    driven back and forth to the fuel stops cancel out. *)
Theorem leg_accounting (start end_ : Location) (distance : Q)
    (t : datetime) (driving duty : Q) (stops : list Location) :
  let leg :=
    _add_driving_segment dist start end_ distance t driving duty stops in
  let entered := if Qle_bool 8 driving then 0 else driving in
  let rested := if Qle_bool 8 driving then 1 # 2 else 0 in
  let dwell := (1 # 2) * inject_Z (Z.of_nat (count_status "On Duty" leg)) in
  exists before arrival,
    leg = before ++ [arrival]
    /\ status arrival = "Driving"
    /\ location arrival = end_
    /\ miles_from_start arrival = distance
    /\ departure_time arrival = arrival_time arrival
    /\ cumulative_driving_hours arrival == entered + distance / 55
    /\ cumulative_duty_hours arrival == duty + rested + dwell + distance / 55
    /\ arrival_time arrival == t + rested + dwell + distance / 55.
Proof.
  intros leg entered rested dwell. subst leg dwell.
  rewrite leg_unfold.
  set (I := fun st =>
     let n := inject_Z (Z.of_nat (count_status "On Duty" (segment_points st))) in
     current_driving st == entered + current_miles st / 55
     /\ current_duty st == duty + rested + (1 # 2) * n + current_miles st / 55
     /\ current_time st == t + rested + (1 # 2) * n + current_miles st / 55).
  assert (Hfuel : I (fold_left (fuel_stop dist start distance) stops
                       (break_check start (mkLeg [] t 0 driving duty)))).
  { apply fuel_stops_invariant.
    - intros st stop (Hd & Hu & Ht).
      destruct (fuel_stop_cases dist start distance st stop)
        as [-> | (p & -> & Hs & _ & Hm & Hpd & Hpu & Hpa & Hpt)];
        [repeat split; assumption|].
      unfold I. cbn [segment_points current_time current_miles
                     current_driving current_duty].
      rewrite (count_on_duty_snoc _ p Hs).
      set (n := inject_Z (Z.of_nat (count_status "On Duty" (segment_points st))))
        in *.
      rewrite Hpt, Hpa, Hpd, Hpu, Hm. clearbody n.
      repeat split; qarith.
    - rewrite break_check_cases. unfold I, entered, rested, BREAK_THRESHOLD.
      destruct (Qle_bool 8 driving);
        cbn [segment_points current_time current_miles current_driving
             current_duty];
        change (inject_Z (Z.of_nat (count_status "On Duty" _))) with 0;
        repeat split; qarith. }
  destruct Hfuel as (Hd & Hu & Ht). unfold final_arrival.
  eexists _, _. split; [reflexivity|].
  cbn [status location miles_from_start departure_time arrival_time
       cumulative_driving_hours cumulative_duty_hours].
  rewrite count_status_app.
  change (count_status "On Duty" [_]) with 0%nat. rewrite Nat.add_0_r.
  set (n := inject_Z (Z.of_nat (count_status "On Duty" _))) in *.
  clearbody n.
  split; [reflexivity|]. split; [reflexivity|]. split; [reflexivity|].
  split; [reflexivity|]. repeat split; qarith.
Qed.

Lemma fuel_loop_skips (start : Location) (distance : Q)
    (stops : list Location) (st : leg_state) :
  Qlt_bool (current_miles st) distance = false ->
  fold_left (fuel_stop dist start distance) stops st = st.
Proof.
  intros Hskip. induction stops as [|stop stops IH]; [reflexivity|].
  cbn [fold_left]. unfold fuel_stop at 2. rewrite Hskip. exact IH.
Qed.

(** X6. A leg of zero length (or less) visits no fuel stop: it is scheduled
    as if the list of stops were empty, so it is the break, when one is due,
    and a Driving point of no duration. *)
Theorem leg_of_no_length (start end_ : Location) (distance : Q)
    (t : datetime) (driving duty : Q) (stops : list Location) :
  distance <= 0 ->
  _add_driving_segment dist start end_ distance t driving duty stops
  = _add_driving_segment dist start end_ distance t driving duty [].
Proof.
  intros Hdist. rewrite !leg_unfold. cbn [fold_left].
  rewrite fuel_loop_skips; [reflexivity|].
  rewrite break_check_cases.
  destruct (Qle_bool BREAK_THRESHOLD driving); cbn [current_miles];
    unfold Qlt_bool; apply negb_false_iff, Qle_bool_iff; exact Hdist.
Qed.

(** The fuel points a loop adds are at a prefix of its stops. *)
Lemma fuel_loop_prefix (start : Location) (distance : Q)
    (stops : list Location) :
  forall st,
    exists added,
      segment_points (fold_left (fuel_stop dist start distance) stops st)
      = segment_points st ++ added
      /\ Forall (fun p => status p = "On Duty") added
      /\ map location added = firstn (List.length added) stops.
Proof.
  induction stops as [|stop stops IH]; intros st.
  - exists []. cbn. rewrite app_nil_r. repeat split. constructor.
  - cbn [fold_left].
    destruct (Qlt_bool (current_miles st) distance) eqn:Hvisit.
    + destruct (fuel_stop_cases dist start distance st stop)
        as [Hsame | (p & Heq & Hs & Hloc & _)].
      * unfold fuel_stop in Hsame. rewrite Hvisit in Hsame.
        exfalso. apply (f_equal (fun x => List.length (segment_points x))) in Hsame.
        cbn [segment_points] in Hsame. rewrite length_app in Hsame.
        cbn in Hsame. lia.
      * destruct (IH (fuel_stop dist start distance st stop))
          as (added & Hpts & Hall & Hmap).
        exists (p :: added). rewrite Hpts, Heq. cbn [segment_points].
        rewrite <- app_assoc. split; [reflexivity|].
        split; [constructor; assumption|].
        cbn [map List.length firstn]. rewrite Hloc, Hmap. reflexivity.
    + unfold fuel_stop at 2. rewrite Hvisit.
      rewrite fuel_loop_skips by exact Hvisit.
      exists []. cbn. rewrite app_nil_r. repeat split. constructor.
Qed.

(** X7. The fuel points of a leg are at the first stops of the list, in
    the order of the list: once a stop is skipped, because the miles driven
    have reached the leg's distance, every later stop is skipped too. *)
Theorem leg_visits_a_prefix (start end_ : Location) (distance : Q)
    (t : datetime) (driving duty : Q) (stops : list Location) :
  let leg :=
    _add_driving_segment dist start end_ distance t driving duty stops in
  let fuel_points := filter (fun p => String.eqb (status p) "On Duty") leg in
  map location fuel_points = firstn (List.length fuel_points) stops
  /\ (List.length fuel_points <= List.length stops)%nat.
Proof.
  intros leg fuel_points.
  assert (Hmap : map location fuel_points
                 = firstn (List.length fuel_points) stops).
  { subst fuel_points leg. rewrite leg_unfold.
    destruct (fuel_loop_prefix start distance stops
                (break_check start (mkLeg [] t 0 driving duty)))
      as (added & Hpts & Hall & Hmap).
    unfold final_arrival. rewrite Hpts, !filter_app.
    assert (Hbreak : filter (fun p => String.eqb (status p) "On Duty")
                       (segment_points
                          (break_check start (mkLeg [] t 0 driving duty)))
                     = []).
    { rewrite break_check_cases.
      destruct (Qle_bool BREAK_THRESHOLD driving); reflexivity. }
    assert (Hadded : filter (fun p => String.eqb (status p) "On Duty") added
                     = added).
    { clear Hpts Hmap. induction Hall as [|p added Hp Hall IH]; [reflexivity|].
      cbn [filter]. rewrite Hp. cbn [String.eqb]. rewrite IH. reflexivity. }
    rewrite Hbreak, Hadded. cbn [filter status String.eqb app].
    rewrite app_nil_r. exact Hmap. }
  split; [exact Hmap|].
  apply (f_equal (@List.length _)) in Hmap.
  rewrite length_map, length_firstn in Hmap. lia.
Qed.

End LegFacts.

Lemma leg_of_no_length_witness :
  _add_driving_segment Examples.grid_distance Examples.depot Examples.depot
    0 0 9 10 [Examples.yard]
  = _add_driving_segment Examples.grid_distance Examples.depot Examples.depot
      0 0 9 10 [].
Proof.
  apply (leg_of_no_length Examples.grid_distance Examples.depot Examples.depot
           0 0 9 10 [Examples.yard]).
  vm_compute. discriminate.
Defined.

(** ** Whole schedules: ends, length and total time *)

Section ScheduleFacts.

Variable dist : Location -> Location -> Q.

(** How many points of each kind a leg has. *)
Lemma leg_counts (start end_ : Location) (distance : Q)
    (t : datetime) (driving duty : Q) (stops : list Location) :
  let leg :=
    _add_driving_segment dist start end_ distance t driving duty stops in
  count_status "Driving" leg = 1%nat
  /\ (count_status "On Duty" leg <= List.length stops)%nat
  /\ (List.length leg
      = count_status "Off Duty" leg + count_status "On Duty" leg + 1)%nat.
Proof.
  intros leg. subst leg. rewrite leg_unfold.
  destruct (fuel_loop_prefix dist start distance stops
              (break_check start (mkLeg [] t 0 driving duty)))
    as (added & Hpts & Hall & Hmap).
  unfold final_arrival. rewrite Hpts, break_check_cases.
  assert (Hlen : (List.length added <= List.length stops)%nat).
  { apply (f_equal (@List.length _)) in Hmap.
    rewrite length_map, length_firstn in Hmap. lia. }
  assert (Hcount : forall st,
            count_status st added
            = if String.eqb "On Duty" st then List.length added else 0%nat).
  { intros st. clear Hpts Hmap Hlen.
    induction Hall as [|p added Hp Hall IH];
      [destruct (String.eqb "On Duty" st); reflexivity|].
    unfold count_status in *. cbn [filter]. rewrite Hp.
    destruct (String.eqb "On Duty" st); cbn [List.length]; rewrite IH;
      reflexivity. }
  rewrite !count_status_app, !length_app, !Hcount.
  destruct (Qle_bool BREAK_THRESHOLD driving);
    cbn [segment_points]; cbn; lia.
Qed.

(** X8. Every schedule has exactly two Driving points, the arrivals at the
    pickup and at the dropoff.  Its On Duty points are the two handling
    points and at most one point per planned fuel stop, and it has between
    five points and eight more than there are planned fuel stops. *)
Theorem schedule_point_counts
    (http_get : string -> result http_response)
    (parse_float : string -> option Q)
    (stdout_print : string -> exn -> result unit)
    (s : self) (now : datetime)
    (current_location pickup_location dropoff_location : string)
    (cycle : Q) :
  returns_unless_print stdout_print
    (calculate_route dist http_get parse_float stdout_print s now
             current_location pickup_location dropoff_location cycle)
    (fun '(details, _) =>
       let schedule := duty_schedule details in
       let planned := List.length (fueling_stops details) in
       count_status "Driving" schedule = 2%nat
       /\ (2 <= count_status "On Duty" schedule <= 2 + planned)%nat
       /\ (5 <= List.length schedule <= 8 + planned)%nat).
Proof.
  apply calculate_route_outcome. intros current pickup dropoff s' Hcycle.
  cbv beta iota zeta. cbn [fueling_stops duty_schedule].
  rewrite schedule_shape. cbv zeta.
  set (stops := _calculate_fueling_stops dist current pickup dropoff).
  match goal with
  | |- context [_add_driving_segment dist current pickup ?d ?t ?a ?b stops] =>
      destruct (leg_counts current pickup d t a b stops) as (D1 & O1 & L1);
      pose proof (leg_off_duty_count dist current pickup d t a b stops) as F1;
      set (leg1 := _add_driving_segment dist current pickup d t a b stops) in *
  end.
  match goal with
  | |- context [_add_driving_segment dist pickup dropoff ?d ?t ?a ?b []] =>
      destruct (leg_counts pickup dropoff d t a b []) as (D2 & O2 & L2);
      pose proof (leg_off_duty_count dist pickup dropoff d t a b []) as F2;
      set (leg2 := _add_driving_segment dist pickup dropoff d t a b []) in *
  end.
  cbn [List.length] in O2.
  assert (B1 : (count_status "Off Duty" leg1 <= 1)%nat)
    by (rewrite F1;
        match goal with |- context [if ?b then _ else _] => destruct b end;
        lia).
  assert (B2 : (count_status "Off Duty" leg2 <= 1)%nat)
    by (rewrite F2;
        match goal with |- context [if ?b then _ else _] => destruct b end;
        lia).
  clear F1 F2.
  change (?x :: leg1 ++ ?y :: leg2 ++ ?z :: ?tail)
    with ([x] ++ leg1 ++ [y] ++ leg2 ++ [z] ++ tail).
  rewrite !count_status_app, !length_app, D1, D2, L1, L2.
  destruct (Piece.needs_rest _); cbn; lia.
Qed.

(** In exact arithmetic the dropoff point has two duty hours more than it
    has driving hours, so the test on its duty hours holds only when the one
    on its driving hours does. *)
Lemma needs_rest_on_driving_hours (cycle : Q) (now : datetime)
    (pickup dropoff : Location) (d1 d2 : Q) :
  let at_dropoff :=
    Piece.dropoff (Piece.pickup cycle now pickup d1) dropoff d2 in
  Piece.needs_rest at_dropoff
  = Qle_bool 11 (cumulative_driving_hours at_dropoff).
Proof.
  intros at_dropoff. unfold Piece.needs_rest.
  change MAX_DRIVING_HOURS with 11.
  destruct (Qle_bool 11 (cumulative_driving_hours at_dropoff)) eqn:E;
    [reflexivity|].
  cbn [orb]. apply Qle_bool_false_iff. apply Qle_bool_false_iff in E.
  revert E. unfold at_dropoff, Piece.dropoff, Piece.pickup.
  cbn [cumulative_driving_hours cumulative_duty_hours].
  intros E. qarith.
Qed.

Lemma total_time_snoc (first : RoutePoint) (middle : list RoutePoint)
    (final : RoutePoint) :
  _calculate_total_time ((first :: middle) ++ [final])
  = departure_time final - arrival_time first.
Proof.
  unfold _calculate_total_time. cbn [app].
  change (first :: middle ++ [final]) with ((first :: middle) ++ [final]).
  rewrite last_last. reflexivity.
Qed.

(** X9. Every schedule ends with the On Duty dropoff point, stamped with the
    total distance, followed by the Off Duty rest made from it exactly when
    the driving hours stored in that dropoff point are at least eleven.  Read
    in exact arithmetic (Python's floats as rationals): the test of the code
    on the dropoff point, driving hours or duty hours, is that test on the
    driving hours alone, these driving hours are the cycle hours plus the
    drive time of the total distance at 55 miles an hour, and the total time
    of the route is that drive time plus the two hours of handling, plus the
    ten hours of rest when the rest is there.  Breaks and fuel stops do not
    count in the total time. *)
Theorem total_time_closed_form
    (http_get : string -> result http_response)
    (parse_float : string -> option Q)
    (stdout_print : string -> exn -> result unit)
    (s : self) (now : datetime)
    (current_location pickup_location dropoff_location : string)
    (cycle : Q) :
  returns_unless_print stdout_print
    (calculate_route dist http_get parse_float stdout_print s now
             current_location pickup_location dropoff_location cycle)
    (fun '(details, _) =>
       exists before at_dropoff,
         let hours := total_distance details / 55 in
         let resting := Qle_bool 11 (cumulative_driving_hours at_dropoff) in
         duty_schedule details
         = before
           ++ at_dropoff
           :: (if resting then [Piece.rest at_dropoff] else [])
         /\ status at_dropoff = "On Duty"
         /\ miles_from_start at_dropoff = total_distance details
         /\ Piece.needs_rest at_dropoff = resting
         /\ cumulative_driving_hours at_dropoff == cycle + hours
         /\ total_time details == hours + 2 + (if resting then 10 else 0)).
Proof.
  apply calculate_route_outcome. intros current pickup dropoff s' Hcycle.
  cbv beta iota zeta.
  cbn [total_distance total_time duty_schedule].
  rewrite schedule_shape, Hcycle. cbv zeta.
  rewrite needs_rest_on_driving_hours.
  set (d1 := dist current pickup). set (d2 := dist pickup dropoff).
  set (leg1 := _add_driving_segment dist current pickup d1 now cycle cycle _).
  set (leg2 := _add_driving_segment dist pickup dropoff d2 _ _ _ []).
  set (at_dropoff := Piece.dropoff (Piece.pickup cycle now pickup d1) dropoff d2).
  exists (Piece.start cycle now current
            :: leg1 ++ Piece.pickup cycle now pickup d1 :: leg2), at_dropoff.
  split; [rewrite <- app_comm_cons, <- app_assoc; reflexivity|].
  split; [reflexivity|]. split; [reflexivity|].
  split; [apply (needs_rest_on_driving_hours cycle now pickup dropoff d1 d2)|].
  split; [cbn; qarith|].
  destruct (Qle_bool 11 (cumulative_driving_hours at_dropoff)).
  - assert (Hshape :
              Piece.start cycle now current
                :: leg1 ++ Piece.pickup cycle now pickup d1
                :: leg2 ++ [at_dropoff; Piece.rest at_dropoff]
              = (Piece.start cycle now current
                   :: leg1 ++ Piece.pickup cycle now pickup d1
                   :: leg2 ++ [at_dropoff]) ++ [Piece.rest at_dropoff]).
    { repeat first [rewrite <- app_assoc | progress cbn [app]]. reflexivity. }
    rewrite Hshape, total_time_snoc. cbn. qarith.
  - assert (Hshape :
              Piece.start cycle now current
                :: leg1 ++ Piece.pickup cycle now pickup d1
                :: leg2 ++ [at_dropoff]
              = (Piece.start cycle now current
                   :: leg1 ++ Piece.pickup cycle now pickup d1 :: leg2)
                ++ [at_dropoff]).
    { repeat first [rewrite <- app_assoc | progress cbn [app]]. reflexivity. }
    rewrite Hshape, total_time_snoc. cbn. qarith.
Qed.

End ScheduleFacts.

(** ** A fresh calculator: where the points of a schedule are *)

Section FreshCalculator.

Variable dist : Location -> Location -> Q.
Variable http_get : string -> result http_response.
Variable parse_float : string -> option Q.
Variable stdout_print : string -> exn -> result unit.

Lemma parse_location_named (s s' : self) (location_str : string) location :
  cache_named (location_cache s) ->
  _parse_location http_get parse_float stdout_print s location_str
  = Ok (location, s') ->
  name location = location_str /\ cache_named (location_cache s').
Proof.
  intros Hnamed. unfold _parse_location.
  destruct (cache_get (location_cache s) location_str) as [cached|] eqn:Hget.
  - intros H. injection H as <- <-. split; [apply Hnamed, Hget | exact Hnamed].
  - destruct (geocode_location http_get parse_float stdout_print location_str)
      as [[lat lon] | e]; cbn [bind]; [|discriminate].
    intros H. injection H as <- <-. split; [reflexivity|].
    cbn [location_cache]. intros key cached. cbn [cache_get].
    destruct (String.eqb location_str key) eqn:E.
    + apply String.eqb_eq in E. intros H. injection H as <-. exact E.
    + apply Hnamed.
Qed.

(** [calculate_hos_route] returns the route of a calculator that starts with
    an empty cache, so that the three locations bear the names of the
    request; it raises only what [calculate_route] does. *)
Lemma hos_route_outcome (now : datetime)
    (current_location pickup_location dropoff_location : string)
    (cycle : Q) (P : RouteDetails -> Prop) :
  (forall current pickup dropoff s',
     name current = current_location ->
     name pickup = pickup_location ->
     name dropoff = dropoff_location ->
     current_cycle_used s' = cycle ->
     P (let d1 := dist current pickup in
        let d2 := dist pickup dropoff in
        let stops := _calculate_fueling_stops dist current pickup dropoff in
        let schedule :=
          _generate_duty_schedule dist s' now current pickup dropoff
            d1 d2 stops in
        mkRouteDetails (d1 + d2) (_calculate_total_time schedule)
          stops schedule (_check_violations schedule))) ->
  returns_unless_print stdout_print
    (calculate_hos_route dist http_get parse_float stdout_print now
       current_location pickup_location dropoff_location cycle)
    P.
Proof.
  intros HP.
  assert (Hr : returns_unless_print stdout_print
                 (calculate_route dist http_get parse_float stdout_print
                    __init__ now current_location pickup_location
                    dropoff_location cycle)
                 (fun '(details, _) => P details)).
  { apply calculate_route_steps.
    intros current pickup dropoff s1 s2 s3 H1 H2 H3.
    assert (W0 : cache_named
                   (location_cache (mkSelf cycle (location_cache __init__))))
      by (intros k l H; cbn in H; discriminate H).
    destruct (parse_location_named _ _ _ _ W0 H1) as (N1 & W1).
    destruct (parse_location_named _ _ _ _ W1 H2) as (N2 & W2).
    destruct (parse_location_named _ _ _ _ W2 H3) as (N3 & _).
    apply HP; try assumption.
    rewrite (parse_location_cycle _ _ _ _ _ _ _ H3),
      (parse_location_cycle _ _ _ _ _ _ _ H2),
      (parse_location_cycle _ _ _ _ _ _ _ H1).
    reflexivity. }
  unfold calculate_hos_route. cbv zeta. unfold returns_unless_print in *.
  destruct (calculate_route dist http_get parse_float stdout_print __init__
              now current_location pickup_location dropoff_location cycle)
    as [[details s'] | e]; cbn [bind]; exact Hr.
Qed.

Lemma leg_places (start end_ : Location) (distance : Q)
    (t : datetime) (driving duty : Q) (stops : list Location) :
  Forall (fun p => location p = start \/ location p = end_
                   \/ In (location p) stops)
    (_add_driving_segment dist start end_ distance t driving duty stops).
Proof.
  rewrite leg_unfold.
  destruct (fuel_loop_prefix dist start distance stops
              (break_check start (mkLeg [] t 0 driving duty)))
    as (added & Hpts & _ & Hmap).
  unfold final_arrival. rewrite Hpts, break_check_cases.
  apply Forall_app. split; [apply Forall_app; split|].
  - destruct (Qle_bool BREAK_THRESHOLD driving); cbn [segment_points];
      [constructor; [left; reflexivity | constructor] | constructor].
  - apply Forall_forall. intros p Hp. right. right.
    apply (in_map location) in Hp. rewrite Hmap in Hp.
    rewrite <- (firstn_skipn (List.length added) stops).
    apply in_or_app. left. exact Hp.
  - constructor; [right; left; reflexivity | constructor].
Qed.

(** X10. With a fresh calculator, the schedule starts Off Duty at the place
    named [current_location], at the time of the call, with no miles and
    with the cycle hours on both counters.  Every point is at the place
    named as the current, the pickup or the dropoff location of the request,
    or at one of the planned fuel stops. *)
Theorem schedule_places (now : datetime)
    (current_location pickup_location dropoff_location : string)
    (cycle : Q) :
  returns_unless_print stdout_print
    (calculate_hos_route dist http_get parse_float stdout_print now
             current_location pickup_location dropoff_location cycle)
    (fun details =>
       (exists current others,
          duty_schedule details
          = mkRoutePoint current now now "Off Duty" 0 cycle cycle :: others
          /\ name current = current_location)
       /\ Forall (fun p =>
                    name (location p) = current_location
                    \/ name (location p) = pickup_location
                    \/ name (location p) = dropoff_location
                    \/ In (location p) (fueling_stops details))
                 (duty_schedule details)).
Proof.
  apply hos_route_outcome.
  intros current pickup dropoff s' N1 N2 N3 Hcycle.
  cbv zeta. cbn [duty_schedule fueling_stops].
  rewrite schedule_shape, Hcycle. cbv zeta.
  split; [eexists current, _; split; [reflexivity | exact N1]|].
  set (stops := _calculate_fueling_stops dist current pickup dropoff).
  constructor; [left; exact N1|].
  apply Forall_app. split.
  - eapply Forall_impl; [|apply leg_places].
    intros p [H | [H | H]]; rewrite ?H; auto.
  - constructor; [right; left; exact N2|].
    apply Forall_app. split.
    + eapply Forall_impl; [|apply leg_places].
      intros p [H | [H | H]]; rewrite ?H; auto. destruct H.
    + constructor; [right; right; left; exact N3|].
      destruct (Piece.needs_rest _); constructor.
      * right; right; left; exact N3.
      * constructor.
Qed.

End FreshCalculator.

(** ** Violations and the summary of the [route] view *)

Section ViolationFacts.

Lemma segment_messages_none (p : RoutePoint) :
  segment_messages p = []
  <-> cumulative_driving_hours p <= 11 /\ cumulative_duty_hours p <= 14.
Proof.
  unfold segment_messages.
  destruct (Qlt_bool 11 (cumulative_driving_hours p)) eqn:E11;
    destruct (Qlt_bool 14 (cumulative_duty_hours p)) eqn:E14;
    destruct (Qlt_bool 70 (cumulative_duty_hours p)) eqn:E70;
    cbn [app];
    try apply Qlt_bool_iff in E11; try apply Qlt_bool_iff in E14;
    try apply Qlt_bool_iff in E70;
    try (apply negb_false_iff, Qle_bool_iff in E11);
    try (apply negb_false_iff, Qle_bool_iff in E14);
    try (apply negb_false_iff, Qle_bool_iff in E70);
    split; try discriminate; try (intros [? ?]; exfalso; lra);
    try (intros _; split; lra).
Qed.

Lemma segment_messages_length (p : RoutePoint) :
  (List.length (segment_messages p) <= 3)%nat.
Proof.
  unfold segment_messages.
  destruct (Qlt_bool 11 _), (Qlt_bool 14 _), (Qlt_bool 70 _); cbn; lia.
Qed.

Lemma check_violations_some_iff (schedule : list RoutePoint) :
  _check_violations schedule <> []
  <-> Exists (fun p => 11 < cumulative_driving_hours p
                       \/ 14 < cumulative_duty_hours p) schedule.
Proof.
  rewrite check_violations_messages.
  induction schedule as [|p schedule IH]; cbn [flat_map].
  - split; [congruence | intros H; inversion H].
  - split.
    + intros H.
      destruct (Qlt_le_dec 11 (cumulative_driving_hours p)) as [Hd | Hd];
        [left; left; exact Hd|].
      destruct (Qlt_le_dec 14 (cumulative_duty_hours p)) as [Hu | Hu];
        [left; right; exact Hu|].
      right. apply IH. intros Hnil. apply H.
      rewrite (proj2 (segment_messages_none p) (conj Hd Hu)), Hnil.
      reflexivity.
    + intros H Hnil. apply app_eq_nil in Hnil. destruct Hnil as [Hp Hrest].
      inversion H as [? ? Hhere | ? ? Hlater]; subst.
      * apply segment_messages_none in Hp. destruct Hhere; lra.
      * apply IH in Hlater. apply Hlater, Hrest.
Qed.

Lemma check_violations_nil_iff (schedule : list RoutePoint) :
  _check_violations schedule = []
  <-> Forall (fun p => cumulative_driving_hours p <= 11
                       /\ cumulative_duty_hours p <= 14) schedule.
Proof.
  rewrite check_violations_messages.
  induction schedule as [|p schedule IH]; cbn [flat_map].
  - split; [constructor | reflexivity].
  - split.
    + intros H. apply app_eq_nil in H. destruct H as [Hp Hrest].
      constructor; [apply segment_messages_none, Hp | apply IH, Hrest].
    + intros H. inversion H as [|? ? Hp Hrest]; subst.
      apply segment_messages_none in Hp. apply IH in Hrest.
      rewrite Hp, Hrest. reflexivity.
Qed.

(** X11. The checker reports nothing exactly when every point has at most
    11 driving hours and at most 14 duty hours (the 70-hour limit is never
    the only one exceeded), and it never reports more than three messages
    per point. *)
Theorem no_violation_iff_within_limits (schedule : list RoutePoint) :
  (_check_violations schedule = []
   <-> Forall (fun p => cumulative_driving_hours p <= 11
                        /\ cumulative_duty_hours p <= 14) schedule)
  /\ (List.length (_check_violations schedule)
      <= 3 * List.length schedule)%nat.
Proof.
  split; [apply check_violations_nil_iff|].
  rewrite check_violations_messages.
  induction schedule as [|p schedule IH]; cbn [flat_map List.length]; [lia|].
  rewrite length_app. pose proof (segment_messages_length p). lia.
Qed.

(** [py_max] is one of the values and none is greater. *)
Lemma py_max_loop (rest : list Q) :
  forall best,
    let result :=
      fold_left (fun best x => if Qlt_bool best x then x else best)
                rest best in
    (result = best \/ In result rest)
    /\ best <= result
    /\ Forall (fun x => x <= result) rest.
Proof.
  induction rest as [|x rest IH]; intros best; cbn [fold_left].
  - split; [left; reflexivity|]. split; [lra | constructor].
  - destruct (Qlt_bool best x) eqn:E.
    + apply Qlt_bool_iff in E.
      destruct (IH x) as (Hin & Hge & Hall). cbv zeta in *.
      split; [right; destruct Hin as [-> | Hin]; [left; reflexivity | right; exact Hin]|].
      split; [lra|]. constructor; [exact Hge | exact Hall].
    + apply negb_false_iff, Qle_bool_iff in E.
      destruct (IH best) as (Hin & Hge & Hall). cbv zeta in *.
      split; [destruct Hin as [-> | Hin]; [left; reflexivity | right; right; exact Hin]|].
      split; [exact Hge|]. constructor; [lra | exact Hall].
Qed.

Lemma py_max_spec (values : list Q) (default : Q) :
  (values = [] /\ Views.py_max values default = default
   \/ In (Views.py_max values default) values)
  /\ Forall (fun x => x <= Views.py_max values default) values.
Proof.
  destruct values as [|first rest]; cbn [Views.py_max].
  - split; [left; split; reflexivity | constructor].
  - destruct (py_max_loop rest first) as (Hin & Hge & Hall). cbv zeta in *.
    split.
    + right. destruct Hin as [-> | Hin]; [left; reflexivity | right; exact Hin].
    + constructor; assumption.
Qed.

Lemma py_max_exceeds (values : list Q) (limit : Q) :
  0 <= limit ->
  (limit < Views.py_max values 0 <-> Exists (fun x => limit < x) values).
Proof.
  intros Hlimit. destruct (py_max_spec values 0) as (Hin & Hall). split.
  - intros H. destruct Hin as [[-> Hmax] | Hin].
    + rewrite Hmax in H. lra.
    + apply Exists_exists. eauto.
  - intros H. apply Exists_exists in H. destruct H as (x & Hx & Hlt).
    rewrite Forall_forall in Hall. specialize (Hall x Hx). lra.
Qed.

Variable dist : Location -> Location -> Q.
Variable http_get : string -> result http_response.
Variable parse_float : string -> option Q.
Variable stdout_print : string -> exn -> result unit.

(** X12. In the summary the [route] view builds from a computed route, the
    violation flag is set exactly when the greatest driving hours of the
    schedule exceed 11 or its greatest duty hours exceed 14; the total driving
    hours never exceed the total duty hours, and no point has more hours than
    the totals. *)
Theorem route_summary_consistent (s : self) (now : datetime)
    (current_location pickup_location dropoff_location : string)
    (cycle : Q) :
  returns_unless_print stdout_print
    (calculate_route dist http_get parse_float stdout_print s now
             current_location pickup_location dropoff_location cycle)
    (fun '(details, _) =>
       let summary := Views.route_summary details in
       (Views.has_violations summary = true
        <-> 11 < Views.total_driving_hours summary
            \/ 14 < Views.total_duty_hours summary)
       /\ Views.total_driving_hours summary <= Views.total_duty_hours summary
       /\ Forall (fun p =>
                    cumulative_driving_hours p
                    <= Views.total_driving_hours summary
                    /\ cumulative_duty_hours p
                       <= Views.total_duty_hours summary)
                 (duty_schedule details)).
Proof.
  apply calculate_route_outcome. intros current pickup dropoff s' Hcycle.
  cbv beta iota zeta. unfold Views.route_summary.
  cbn [Views.has_violations Views.total_driving_hours Views.total_duty_hours
       Views.fuel_stops_count duty_schedule violations fueling_stops].
  set (schedule := _generate_duty_schedule dist s' now current pickup dropoff
                     _ _ _).
  pose proof (generated_schedule_driving_le_duty dist s' now current pickup
                dropoff (dist current pickup) (dist pickup dropoff)
                (_calculate_fueling_stops dist current pickup dropoff))
    as Hle. fold schedule in Hle.
  destruct (py_max_spec (map cumulative_driving_hours schedule) 0)
    as (Hdin & Hdall).
  destruct (py_max_spec (map cumulative_duty_hours schedule) 0)
    as (Huin & Huall).
  split; [|split].
  - rewrite !py_max_exceeds by lra. rewrite !Exists_exists.
    pose proof (check_violations_some_iff schedule) as Hsome.
    rewrite Exists_exists in Hsome. split.
    + intros H. apply Nat.ltb_lt in H.
      destruct (proj1 Hsome) as (p & Hin & [Hd | Hu]).
      * destruct (_check_violations schedule); [cbn in H; lia | discriminate].
      * left. exists (cumulative_driving_hours p).
        split; [apply in_map, Hin | exact Hd].
      * right. exists (cumulative_duty_hours p).
        split; [apply in_map, Hin | exact Hu].
    + intros H. apply Nat.ltb_lt.
      assert (Hne : _check_violations schedule <> []).
      { apply Hsome.
        destruct H as [(x & Hx & Hlt) | (x & Hx & Hlt)];
          apply in_map_iff in Hx; destruct Hx as (p & <- & Hin);
          exists p; split; auto. }
      destruct (_check_violations schedule); [congruence | cbn; lia].
  - destruct Hdin as [[Hnil ->] | Hdin].
    + destruct Huin as [[_ ->] | Huin]; [lra|].
      destruct schedule; [destruct Huin | discriminate Hnil].
    + apply in_map_iff in Hdin. destruct Hdin as (p & Hp & Hin).
      rewrite Forall_forall in Hle, Huall.
      specialize (Hle p Hin).
      specialize (Huall (cumulative_duty_hours p) (in_map _ _ _ Hin)).
      rewrite <- Hp. lra.
  - rewrite Forall_forall in *. intros p Hin. split.
    + apply Hdall, in_map, Hin.
    + apply Huall, in_map, Hin.
Qed.

End ViolationFacts.

(** ** The duty status summary *)

Section SummaryFacts.

Lemma dict_add_outcome (summary : list (string * Q)) (key : string) (x : Q) :
  match dict_add summary key x with
  | Ok summary' =>
      map fst summary' = map fst summary
      /\ existsb (String.eqb key) (map fst summary) = true
      /\ summary_total summary' == summary_total summary + x
  | Raise e =>
      e = KeyError /\ existsb (String.eqb key) (map fst summary) = false
  end.
Proof.
  induction summary as [|[k v] summary IH]; cbn [dict_add].
  - split; reflexivity.
  - cbn [map fst existsb]. rewrite (String.eqb_sym key k).
    destruct (String.eqb k key); cbn [orb].
    + split; [reflexivity|]. split; [reflexivity|].
      unfold summary_total. cbn [fold_right snd].
      set (others := fold_right _ 0 summary). clearbody others. lra.
    + destruct (dict_add summary key x) as [summary'|e]; cbn [bind].
      * destruct IH as (Hkeys & Hin & Hsum).
        split; [cbn [map fst]; rewrite Hkeys; reflexivity|].
        split; [exact Hin|].
        unfold summary_total in *. cbn [fold_right snd].
        set (others := fold_right _ 0 summary) in *.
        set (others' := fold_right _ 0 summary') in *.
        clearbody others others'. lra.
      * exact IH.
Qed.

Lemma summary_loop_outcome (schedule : list RoutePoint) :
  forall summary,
    map fst summary = summary_keys ->
    match summary_loop schedule summary with
    | Ok summary' =>
        map fst summary' = summary_keys
        /\ forallb known_status (removelast schedule) = true
        /\ summary_total summary'
           == summary_total summary + hours_between schedule
    | Raise e =>
        e = KeyError /\ forallb known_status (removelast schedule) = false
    end.
Proof.
  induction schedule as [|p rest IH]; intros summary Hkeys.
  - cbn [summary_loop removelast forallb hours_between].
    split; [exact Hkeys|]. split; [reflexivity|].
    rewrite Qplus_0_r. reflexivity.
  - destruct rest as [|q rest].
    + cbn [summary_loop removelast forallb hours_between].
      split; [exact Hkeys|]. split; [reflexivity|].
      rewrite Qplus_0_r. reflexivity.
    + change (summary_loop (p :: q :: rest) summary)
        with (summary1 <- dict_add summary (status p)
                            (arrival_time q - departure_time p) ;;
              summary_loop (q :: rest) summary1).
      change (removelast (p :: q :: rest)) with (p :: removelast (q :: rest)).
      change (hours_between (p :: q :: rest))
        with ((arrival_time q - departure_time p) + hours_between (q :: rest)).
      cbn [forallb].
      pose proof (dict_add_outcome summary (status p)
                    (arrival_time q - departure_time p)) as Hadd.
      rewrite Hkeys in Hadd.
      change (existsb (String.eqb (status p)) summary_keys)
        with (known_status p) in Hadd.
      destruct (dict_add summary (status p) _) as [summary1|e]; cbn [bind].
      * destruct Hadd as (Hkeys1 & Hin & Hsum1). rewrite Hin. cbn [andb].
        specialize (IH summary1 Hkeys1).
        destruct (summary_loop (q :: rest) summary1) as [summary'|e'].
        -- destruct IH as (Hk & Hf & Hs).
           split; [exact Hk|]. split; [exact Hf|]. lra.
        -- exact IH.
      * destruct Hadd as (-> & Hin). rewrite Hin. split; reflexivity.
Qed.

(** X13. The duty status summary has the four keys Driving, On Duty,
    Sleeper and Off Duty, in this order, when every point but the last has
    one of these four statuses; when one of them has another status the call
    raises [KeyError].  The status of the last point does not matter. *)
Theorem duty_status_summary_outcome (schedule : list RoutePoint) :
  match get_duty_status_summary schedule with
  | Ok summary =>
      map fst summary = ["Driving"; "On Duty"; "Sleeper"; "Off Duty"]%string
      /\ forallb known_status (removelast schedule) = true
  | Raise e =>
      e = KeyError /\ forallb known_status (removelast schedule) = false
  end.
Proof.
  unfold get_duty_status_summary. cbv zeta.
  pose proof (summary_loop_outcome schedule
                [("Driving"%string, 0); ("On Duty"%string, 0);
                 ("Sleeper"%string, 0); ("Off Duty"%string, 0)] eq_refl)
    as H.
  destruct (summary_loop schedule _) as [summary|e].
  - destruct H as (Hk & Hf & _). split; assumption.
  - exact H.
Qed.

Lemma last_default (rest : list RoutePoint) :
  forall q d d' : RoutePoint, last (q :: rest) d = last (q :: rest) d'.
Proof.
  induction rest as [|r rest IH]; intros q d d'; [reflexivity|].
  change (last (q :: r :: rest) d) with (last (r :: rest) d).
  change (last (q :: r :: rest) d') with (last (r :: rest) d').
  apply IH.
Qed.

Lemma last_of_cons (p q : RoutePoint) (rest : list RoutePoint) :
  last (p :: q :: rest) p = last (q :: rest) q.
Proof.
  change (last (p :: q :: rest) p) with (last (q :: rest) p).
  apply last_default.
Qed.

Lemma total_time_split (schedule : list RoutePoint) :
  _calculate_total_time schedule
  == hours_between schedule + hours_at schedule.
Proof.
  destruct schedule as [|p rest]; [reflexivity|].
  revert p. induction rest as [|q rest IH]; intros p.
  - cbn. lra.
  - unfold _calculate_total_time. rewrite last_of_cons.
    specialize (IH q). unfold _calculate_total_time in IH.
    cbn [hours_between hours_at fold_right] in *. lra.
Qed.

(** X14. Whenever the summary is returned, its four entries add up to the
    time spent between the points of the schedule: together with the time
    spent at the points, from arrival to departure, they make the total time
    of [_calculate_total_time]. *)
Theorem duty_status_summary_total (schedule : list RoutePoint) :
  match get_duty_status_summary schedule with
  | Ok summary =>
      summary_total summary + hours_at schedule
      == _calculate_total_time schedule
  | Raise _ => True
  end.
Proof.
  unfold get_duty_status_summary. cbv zeta.
  pose proof (summary_loop_outcome schedule
                [("Driving"%string, 0); ("On Duty"%string, 0);
                 ("Sleeper"%string, 0); ("Off Duty"%string, 0)] eq_refl)
    as H.
  destruct (summary_loop schedule _) as [summary|e]; [|exact I].
  destruct H as (_ & _ & Hsum). rewrite total_time_split, Hsum.
  cbn [summary_total fold_right snd]. lra.
Qed.

End SummaryFacts.

(** ** The Driving entry of the summary of a computed route *)

Section DrivingEntry.

Variable dist : Location -> Location -> Q.

Lemma dict_add_value (summary summary' : list (string * Q))
    (k key : string) (x : Q) :
  dict_add summary k x = Ok summary' ->
  dict_value summary' key
  == dict_value summary key + (if String.eqb k key then x else 0).
Proof.
  revert summary'.
  induction summary as [|[k0 v] summary IH]; intros summary';
    cbn [dict_add]; [discriminate|].
  destruct (String.eqb k0 k) eqn:E0.
  - apply String.eqb_eq in E0. subst k0.
    intros H. injection H as <-. cbn [dict_value].
    destruct (String.eqb k key); lra.
  - destruct (dict_add summary k x) as [rest'|e]; cbn [bind]; [|discriminate].
    intros H. injection H as <-. cbn [dict_value].
    destruct (String.eqb k0 key) eqn:E1.
    + apply String.eqb_eq in E1. subst k0.
      rewrite String.eqb_sym, E0. lra.
    + apply IH. reflexivity.
Qed.

Lemma summary_loop_value (key : string) (schedule : list RoutePoint) :
  forall summary summary',
    summary_loop schedule summary = Ok summary' ->
    dict_value summary' key
    == dict_value summary key + hours_after key schedule.
Proof.
  induction schedule as [|p rest IH]; intros summary summary'.
  - cbn [summary_loop hours_after]. intros H. injection H as <-. lra.
  - destruct rest as [|q rest].
    + cbn [summary_loop hours_after]. intros H. injection H as <-. lra.
    + change (summary_loop (p :: q :: rest) summary)
        with (summary1 <- dict_add summary (status p)
                            (arrival_time q - departure_time p) ;;
              summary_loop (q :: rest) summary1).
      change (hours_after key (p :: q :: rest))
        with ((if String.eqb (status p) key
               then arrival_time q - departure_time p else 0)
              + hours_after key (q :: rest)).
      destruct (dict_add summary (status p) _) as [summary1|e] eqn:Hadd;
        cbn [bind]; [|discriminate].
      intros H. rewrite (IH summary1 summary' H).
      rewrite (dict_add_value _ _ _ key _ Hadd). lra.
Qed.

Lemma hours_after_snoc_none (key : string) (before : list RoutePoint)
    (p : RoutePoint) :
  Forall (fun q => status q <> key) before ->
  hours_after key (before ++ [p]) == 0.
Proof.
  induction 1 as [|x before Hx Hall IH]; [reflexivity|].
  cbn [app]. destruct before as [|y before].
  - cbn [app hours_after].
    destruct (String.eqb (status x) key) eqn:E;
      [apply String.eqb_eq in E; contradiction | lra].
  - change (hours_after key (x :: (y :: before) ++ [p]))
      with ((if String.eqb (status x) key
             then arrival_time y - departure_time x else 0)
            + hours_after key ((y :: before) ++ [p])).
    rewrite IH.
    destruct (String.eqb (status x) key) eqn:E;
      [apply String.eqb_eq in E; contradiction | lra].
Qed.

Lemma hours_after_app (key : string) (before : list RoutePoint)
    (p q : RoutePoint) (rest : list RoutePoint) :
  hours_after key (before ++ p :: q :: rest)
  == hours_after key (before ++ [p])
     + (if String.eqb (status p) key
        then arrival_time q - departure_time p else 0)
     + hours_after key (q :: rest).
Proof.
  induction before as [|x before IH].
  - cbn [app]. change (hours_after key [p]) with 0.
    change (hours_after key (p :: q :: rest))
      with ((if String.eqb (status p) key
             then arrival_time q - departure_time p else 0)
            + hours_after key (q :: rest)).
    lra.
  - destruct before as [|y before].
    + cbn [app] in *.
      change (hours_after key (x :: p :: q :: rest))
        with ((if String.eqb (status x) key
               then arrival_time p - departure_time x else 0)
              + hours_after key (p :: q :: rest)).
      change (hours_after key [x; p])
        with ((if String.eqb (status x) key
               then arrival_time p - departure_time x else 0)
              + hours_after key [p]).
      rewrite IH. lra.
    + change (hours_after key ((x :: y :: before) ++ p :: q :: rest))
        with ((if String.eqb (status x) key
               then arrival_time y - departure_time x else 0)
              + hours_after key ((y :: before) ++ p :: q :: rest)).
      change (hours_after key ((x :: y :: before) ++ [p]))
        with ((if String.eqb (status x) key
               then arrival_time y - departure_time x else 0)
              + hours_after key ((y :: before) ++ [p])).
      rewrite IH. lra.
Qed.

(** The Driving point of a leg is its last point and its only one; it is
    stamped no earlier than the drive time of the leg after the leg's start. *)
Lemma leg_ends_late (start end_ : Location) (distance : Q)
    (t : datetime) (driving duty : Q) (stops : list Location) :
  exists before arrival,
    _add_driving_segment dist start end_ distance t driving duty stops
    = before ++ [arrival]
    /\ Forall (fun q => status q <> "Driving") before
    /\ status arrival = "Driving"
    /\ t + distance / 55 <= departure_time arrival.
Proof.
  rewrite leg_unfold.
  set (I := fun st =>
              Forall (fun q => status q <> "Driving") (segment_points st)
              /\ t + current_miles st / 55 <= current_time st).
  assert (Hfuel : I (fold_left (fuel_stop dist start distance) stops
                       (break_check start (mkLeg [] t 0 driving duty)))).
  { apply fuel_stops_invariant.
    - intros st stop [Hpts Hst].
      destruct (fuel_stop_cases dist start distance st stop)
        as [-> | (p & -> & Hs & _ & Hm & _ & _ & Ha & Hd)]; [split; assumption|].
      split; cbn [segment_points current_miles current_time].
      + apply Forall_app. split; [exact Hpts|].
        constructor; [rewrite Hs; discriminate | constructor].
      + rewrite Hd, Ha, Hm. qarith.
    - rewrite break_check_cases.
      destruct (Qle_bool BREAK_THRESHOLD driving);
        split; cbn [segment_points current_miles current_time];
        try qarith.
      + constructor; [discriminate | constructor].
      + constructor. }
  destruct Hfuel as [Hpts Hst]. unfold final_arrival.
  eexists _, _. split; [reflexivity|]. split; [exact Hpts|].
  split; [reflexivity|]. cbn [departure_time]. qarith.
Qed.

(** On points that are Off Duty, On Duty or Driving the loop leaves the
    Sleeper entry alone. *)
Lemma summary_loop_shape (schedule : list RoutePoint) :
  Forall (fun p => status p = "Off Duty" \/ status p = "On Duty"
                   \/ status p = "Driving") schedule ->
  forall d i z o,
    exists d' i' o',
      summary_loop schedule
        [("Driving"%string, d); ("On Duty"%string, i);
         ("Sleeper"%string, z); ("Off Duty"%string, o)]
      = Ok [("Driving"%string, d'); ("On Duty"%string, i');
            ("Sleeper"%string, z); ("Off Duty"%string, o')].
Proof.
  induction 1 as [|p rest Hp Hall IH]; intros d i z o.
  - exists d, i, o. reflexivity.
  - destruct rest as [|q rest]; [exists d, i, o; reflexivity|].
    change (summary_loop (p :: q :: rest) ?summary)
      with (summary1 <- dict_add summary (status p)
                          (arrival_time q - departure_time p) ;;
            summary_loop (q :: rest) summary1).
    destruct Hp as [Hp | [Hp | Hp]]; rewrite Hp;
      cbn [dict_add String.eqb Ascii.eqb Bool.eqb bind]; apply IH.
Qed.

(** X15. For every computed route the summary is returned, its Sleeper
    entry is 0 and its Driving entry is at most minus one hour: the only
    points of status Driving are the two arrivals, and each is stamped
    later than the handling point that follows it begins. *)
Theorem driving_entry_is_negative
    (http_get : string -> result http_response)
    (parse_float : string -> option Q)
    (stdout_print : string -> exn -> result unit)
    (s : self) (now : datetime)
    (current_location pickup_location dropoff_location : string)
    (cycle : Q) :
  (forall a b, 0 <= dist a b) ->
  returns_unless_print stdout_print
    (calculate_route dist http_get parse_float stdout_print s now
             current_location pickup_location dropoff_location cycle)
    (fun '(details, _) =>
       returns (get_duty_status_summary (duty_schedule details))
         (fun summary =>
            exists driving on_duty off_duty,
              summary = [("Driving"%string, driving);
                         ("On Duty"%string, on_duty);
                         ("Sleeper"%string, 0);
                         ("Off Duty"%string, off_duty)]
              /\ driving <= - (1))).
Proof.
  intros Hdist.
  apply calculate_route_outcome. intros current pickup dropoff s' Hcycle.
  cbv beta iota zeta. cbn [duty_schedule].
  set (d1 := dist current pickup). set (d2 := dist pickup dropoff).
  set (stops := _calculate_fueling_stops dist current pickup dropoff).
  set (schedule := _generate_duty_schedule dist s' now current pickup dropoff
                     d1 d2 stops).
  unfold get_duty_status_summary. cbv zeta.
  destruct (summary_loop_shape schedule
              (generated_schedule_statuses dist s' now current pickup dropoff
                 d1 d2 stops) 0 0 0 0)
    as (driving & on_duty & off_duty & Hloop).
  rewrite Hloop. cbn [returns].
  exists driving, on_duty, off_duty. split; [reflexivity|].
  pose proof (summary_loop_value "Driving" schedule _ _ Hloop) as Hvalue.
  cbn [dict_value String.eqb Ascii.eqb Bool.eqb] in Hvalue.
  rewrite Hvalue. clear Hvalue Hloop.
  unfold schedule. rewrite schedule_shape, Hcycle. cbv zeta.
  set (at_pickup := Piece.pickup cycle now pickup d1).
  set (at_dropoff := Piece.dropoff at_pickup dropoff d2).
  destruct (leg_ends_late current pickup d1 now cycle cycle stops)
    as (before1 & arrival1 & -> & Hnone1 & Hs1 & Hlate1).
  destruct (leg_ends_late pickup dropoff d2 (departure_time at_dropoff)
              (cumulative_driving_hours at_pickup)
              (cumulative_duty_hours at_pickup) [])
    as (before2 & arrival2 & -> & Hnone2 & Hs2 & Hlate2).
  set (tail := if Piece.needs_rest at_dropoff then [Piece.rest at_dropoff]
               else []).
  assert (Hshape :
            Piece.start cycle now current
              :: (before1 ++ [arrival1]) ++ at_pickup
              :: (before2 ++ [arrival2]) ++ at_dropoff :: tail
            = (Piece.start cycle now current :: before1)
              ++ arrival1 :: at_pickup
              :: (before2 ++ arrival2 :: at_dropoff :: tail)).
  { repeat first [rewrite <- app_assoc | progress cbn [app]]. reflexivity. }
  rewrite Hshape, hours_after_app. clear Hshape.
  rewrite hours_after_snoc_none
    by (constructor; [discriminate | exact Hnone1]).
  change (at_pickup :: before2 ++ arrival2 :: at_dropoff :: tail)
    with ((at_pickup :: before2) ++ arrival2 :: at_dropoff :: tail).
  rewrite hours_after_app.
  rewrite hours_after_snoc_none
    by (constructor; [discriminate | exact Hnone2]).
  rewrite Hs1, Hs2. cbn [String.eqb Ascii.eqb Bool.eqb].
  assert (Htail : hours_after "Driving" (at_dropoff :: tail) == 0).
  { unfold tail. destruct (Piece.needs_rest at_dropoff); cbn; lra. }
  rewrite Htail.
  assert (H1 : arrival_time at_pickup == now + d1 / 55) by (cbn; qarith).
  assert (H2 : departure_time at_dropoff == arrival_time at_dropoff + 1)
    by (cbn; qarith).
  pose proof (Hdist pickup dropoff) as Hd2. fold d2 in Hd2.
  clearbody at_pickup at_dropoff tail d1 d2. qarith.
Qed.

End DrivingEntry.

Lemma driving_entry_is_negative_witness :
  returns (calculate_route Examples.grid_distance Examples.gazetteer
             Examples.parse_float Examples.quiet_stdout __init__ 0
             "New York" "Chicago" "Los Angeles" 0)
    (fun '(details, _) =>
       returns (get_duty_status_summary (duty_schedule details))
         (fun summary =>
            exists driving on_duty off_duty,
              summary = [("Driving"%string, driving);
                         ("On Duty"%string, on_duty);
                         ("Sleeper"%string, 0);
                         ("Off Duty"%string, off_duty)]
              /\ driving <= - (1))).
Proof.
  apply (returns_when_quiet _ _ _
           (driving_entry_is_negative Examples.grid_distance
              Examples.gazetteer Examples.parse_float Examples.quiet_stdout
              __init__ 0 "New York" "Chicago" "Los Angeles" 0
              grid_distance_nonneg)).
  intros [details s'] H. exact H.
Defined.

(** ** Where the fuel stops are, and how many *)

Section FuelStopFacts.

Variable dist : Location -> Location -> Q.

Lemma leg_fraction_inside (L : Q) (fractions : list Q) (p : Q) :
  leg_fractions L fractions -> In p fractions -> 0 < p /\ p < 1.
Proof.
  intros [Hnth Hbound] Hin.
  destruct (In_nth fractions p 0 Hin) as (k & Hk & Hp).
  specialize (Hnth k Hk). rewrite Hp in Hnth.
  assert (Hlt : inject_Z (Z.of_nat (S k)) * 1000 < L)
    by (apply Hbound; lia).
  pose proof (inject_nat_nonneg k) as Hk0.
  pose proof (inject_succ k) as Hsucc.
  set (c := inject_Z (Z.of_nat (S k)) * 1000) in *.
  assert (Hc : 0 < c) by (unfold c; lra).
  assert (HL : 0 < L) by lra.
  rewrite Hnth. split.
  - apply Qlt_shift_div_l; [exact HL | lra].
  - apply Qlt_shift_div_r; [exact HL | lra].
Qed.

Lemma interpolation_between (a b p : Q) :
  0 < p -> p < 1 -> between a b (a + (b - a) * p).
Proof.
  intros H0 H1. unfold between.
  destruct (Qlt_le_dec b a) as [Hba | Hab]; [right | left]; split; nra.
Qed.

(** X16. Every planned fuel stop is interpolated strictly inside one of the
    two legs: its progress is more than 0 and less than 1, so its latitude
    and its longitude lie between those of the endpoints of that leg, and no
    stop coincides with the pickup or the dropoff. *)
Theorem fueling_stops_on_the_legs (current pickup dropoff : Location) :
  Forall
    (fun stop =>
       exists start end_ progress,
         (start = current /\ end_ = pickup
          \/ start = pickup /\ end_ = dropoff)
         /\ 0 < progress /\ progress < 1
         /\ stop = _interpolate_location start end_ progress
         /\ between (latitude start) (latitude end_) (latitude stop)
         /\ between (longitude start) (longitude end_) (longitude stop))
    (_calculate_fueling_stops dist current pickup dropoff).
Proof.
  destruct (fueling_stops_fractions dist current pickup dropoff)
    as (fractions1 & fractions2 & -> & H1 & H2).
  apply Forall_app. split; apply Forall_forall; intros stop Hin;
    apply in_map_iff in Hin; destruct Hin as (p & <- & Hp).
  - destruct (leg_fraction_inside _ _ _ H1 Hp) as [Hp0 Hp1].
    exists current, pickup, p. split; [left; split; reflexivity|].
    split; [exact Hp0|]. split; [exact Hp1|]. split; [reflexivity|].
    split; apply interpolation_between; assumption.
  - destruct (leg_fraction_inside _ _ _ H2 Hp) as [Hp0 Hp1].
    exists pickup, dropoff, p. split; [right; split; reflexivity|].
    split; [exact Hp0|]. split; [exact Hp1|]. split; [reflexivity|].
    split; apply interpolation_between; assumption.
Qed.



End FuelStopFacts.

(** ** When a route is reported clean *)

Section CleanRoutes.

Variable dist : Location -> Location -> Q.
Variable http_get : string -> result http_response.
Variable parse_float : string -> option Q.
Variable stdout_print : string -> exn -> result unit.

(** X18. A driver who starts with more than 11 hours on the cycle is
    reported in violation before the first mile: the first message of the
    list is the 11-hour message at the current location. *)
Theorem late_start_is_reported (now : datetime)
    (current_location pickup_location dropoff_location : string)
    (cycle : Q) :
  11 < cycle ->
  returns_unless_print stdout_print
    (calculate_hos_route dist http_get parse_float stdout_print now
             current_location pickup_location dropoff_location cycle)
    (fun details =>
       exists others,
         violations details
         = ("Violation: Exceeded 11-hour driving limit at "
              ++ current_location)%string :: others).
Proof.
  intros Hcycle. apply hos_route_outcome.
  intros current pickup dropoff s' N1 _ _ Hc.
  cbv zeta. cbn [violations].
  rewrite check_violations_messages, schedule_shape, Hc. cbv zeta.
  cbn [flat_map]. unfold segment_messages at 1.
  cbn [Piece.start cumulative_driving_hours].
  assert (E : Qlt_bool 11 cycle = true) by (apply Qlt_bool_iff; exact Hcycle).
  rewrite E. unfold driving_limit_message. cbn [app].
  change (name (location (Piece.start cycle now current))) with (name current).
  rewrite N1. eexists. reflexivity.
Qed.

(** X19. A route of at most 1000 miles in all has no fuel stop, and it is
    reported without violation exactly when the driving hours stored in its
    dropoff point, the On Duty point that ends the schedule or comes just
    before the final rest, are at most 11.  Read in exact arithmetic
    (Python's floats as rationals), where no point of such a schedule has
    more driving hours than the dropoff point and none has more than three
    duty hours above them.  Distances are never negative. *)
Theorem short_route_clean_iff (s : self) (now : datetime)
    (current_location pickup_location dropoff_location : string)
    (cycle : Q) :
  (forall a b, 0 <= dist a b) ->
  returns_unless_print stdout_print
    (calculate_route dist http_get parse_float stdout_print s now
             current_location pickup_location dropoff_location cycle)
    (fun '(details, _) =>
       total_distance details <= 1000 ->
       fueling_stops details = []
       /\ exists before at_dropoff,
            duty_schedule details
            = before
              ++ at_dropoff
              :: (if Piece.needs_rest at_dropoff
                  then [Piece.rest at_dropoff] else [])
            /\ status at_dropoff = "On Duty"
            /\ miles_from_start at_dropoff = total_distance details
            /\ (violations details = []
                <-> cumulative_driving_hours at_dropoff <= 11)).
Proof.
  intros Hdist.
  apply calculate_route_outcome. intros current pickup dropoff s' Hcycle.
  cbv beta iota zeta.
  cbn [violations total_distance fueling_stops duty_schedule].
  intros Htotal.
  pose proof (Hdist current pickup) as H1.
  pose proof (Hdist pickup dropoff) as H2.
  destruct (fueling_stops_fractions dist current pickup dropoff)
    as (fractions1 & fractions2 & -> & F1 & F2).
  rewrite (leg_fractions_short _ _ F1) by lra.
  rewrite (leg_fractions_short _ _ F2) by lra.
  cbn [map app]. split; [reflexivity|].
  rewrite schedule_shape, Hcycle. cbv zeta.
  set (d1 := dist current pickup) in *. set (d2 := dist pickup dropoff) in *.
  set (at_pickup := Piece.pickup cycle now pickup d1).
  set (at_dropoff := Piece.dropoff at_pickup dropoff d2).
  set (leg1 := _add_driving_segment dist current pickup d1 now cycle cycle []).
  set (leg2 := _add_driving_segment dist pickup dropoff d2 _ _ _ []).
  exists (Piece.start cycle now current :: leg1 ++ at_pickup :: leg2),
    at_dropoff.
  split; [rewrite <- app_comm_cons, <- app_assoc; reflexivity|].
  split; [reflexivity|]. split; [reflexivity|].
  rewrite check_violations_nil_iff.
  clearbody d1 d2. clear Htotal. split.
  - intros Hall. rewrite Forall_forall in Hall.
    apply (Hall at_dropoff).
    right. apply in_or_app. right. right. apply in_or_app. right.
    left. reflexivity.
  - intros Hle. subst leg1 leg2. rewrite !leg_without_stops.
    unfold at_dropoff, at_pickup in *. cbn in Hle.
    repeat first
      [ apply Forall_cons | apply Forall_app; split | apply Forall_nil ];
      repeat match goal with
             | |- context [if ?b then _ else _] => destruct b eqn:?
             end;
      repeat first [ apply Forall_cons | apply Forall_nil ];
      repeat match goal with
             | H : Qle_bool _ _ = true |- _ => apply Qle_bool_iff in H
             | H : Qle_bool _ _ = false |- _ =>
                 apply Qle_bool_false_iff in H
             | H : (_ || _)%bool = true |- _ => clear H
             | H : (_ || _)%bool = false |- _ => clear H
             end;
      cbn in *; split; qarith.
Qed.

End CleanRoutes.

Lemma late_start_is_reported_witness :
  returns (calculate_hos_route Examples.grid_distance Examples.offline
             Examples.parse_float Examples.quiet_stdout 0
             "Chicago" "Chicago" "Chicago" 12)
    (fun details =>
       exists others,
         violations details
         = "Violation: Exceeded 11-hour driving limit at Chicago"%string
             :: others).
Proof.
  assert (Hcycle : 11 < 12) by (vm_compute; reflexivity).
  apply (returns_when_quiet _ _ _
           (late_start_is_reported Examples.grid_distance Examples.offline
              Examples.parse_float Examples.quiet_stdout 0
              "Chicago" "Chicago" "Chicago" 12 Hcycle)).
  intros details H. exact H.
Defined.

(** Three times the default place, five hours on the cycle: no mile, no
    fuel stop, and the report is clean as the dropoff point has its five
    driving hours. *)
Lemma short_route_clean_iff_witness :
  returns (calculate_route Examples.grid_distance Examples.offline
             Examples.parse_float Examples.quiet_stdout __init__ 0
             "Chicago" "Chicago" "Chicago" 5)
    (fun '(details, _) =>
       total_distance details <= 1000 ->
       fueling_stops details = []
       /\ exists before at_dropoff,
            duty_schedule details
            = before
              ++ at_dropoff
              :: (if Piece.needs_rest at_dropoff
                  then [Piece.rest at_dropoff] else [])
            /\ status at_dropoff = "On Duty"
            /\ miles_from_start at_dropoff = total_distance details
            /\ (violations details = []
                <-> cumulative_driving_hours at_dropoff <= 11)).
Proof.
  apply (returns_when_quiet _ _ _
           (short_route_clean_iff Examples.grid_distance Examples.offline
              Examples.parse_float Examples.quiet_stdout __init__ 0
              "Chicago" "Chicago" "Chicago" 5 grid_distance_nonneg)).
  intros [details s'] H. exact H.
Defined.
